(** * MVPfolio: the page script [js/main.js]

  A shallow embedding of the modules of [js/main.js] that carry state
  (ThemeToggle, SmoothScroll, ScrollReveal, MobileMenu) and the
  properties the specification states about them.

  The browser objects the script talks to are modelled by the part of
  their state the script reads or writes:
  - [localStorage] is a finite map from keys to strings, together with
    two flags saying whether a read or a write raises;
  - an element's [classList] is the list of its class tokens;
  - an attribute is an [option string] ([None]: the attribute is absent,
    [getAttribute] answers [null]);
  - a call that may raise returns a [completion]. *)

From stdpp Require Import base option list strings gmap.

Local Open Scope string_scope.
Local Open Scope nat_scope.

(** ** JavaScript values and completions *)

Module JS.

Inductive exn : Type :=
| SecurityError
| QuotaExceededError
| SyntaxError
| TypeError
| ReferenceError.

(** The outcome of evaluating a call: a value, or a raised exception. *)
Inductive completion (A : Type) : Type :=
| Normal (a : A)
| Throw (e : exn).
Arguments Normal {A} a.
Arguments Throw {A} e.

(** Truthiness of a value of type [string | null]: [null] and the empty
    string are falsy. *)
Definition truthy (v : option string) : bool :=
  match v with
  | Some s => bool_decide (s ≠ "")
  | None => false
  end.

(** [a || b] for [a : string | null] and [b : string]. *)
Definition or_else (a : option string) (b : string) : string :=
  match a with
  | Some s => if truthy a then s else b
  | None => b
  end.

(** DOMTokenList: [classList.contains], [add], [remove], [toggle]. *)
Definition contains (c : string) (l : list string) : bool :=
  bool_decide (c ∈ l).

Definition classList_add (c : string) (l : list string) : list string :=
  if contains c l then l else (l ++ [c])%list.

Definition classList_remove (c : string) (l : list string) : list string :=
  filter (λ x, x ≠ c) l.

Definition classList_toggle (c : string) (l : list string)
  : list string * bool :=
  if contains c l then (classList_remove c l, false)
  else ((l ++ [c])%list, true).

(** [window.matchMedia]: absent in old environments, otherwise a function
    from a media query to its current [matches] flag.  The object it
    returns, a MediaQueryList, has the method [addEventListener] only in
    newer environments; older ones offer [addListener] alone, and calling
    the missing method raises a [TypeError]. *)
Record window : Type := {
  matchMedia : option (string → bool);
  mediaQueryList_addEventListener : bool;
  has_IntersectionObserver : bool
}.

(** Web Storage restricted to what the script uses it for. *)
Record Storage : Type := {
  readable : bool;
  writable : bool;
  items : gmap string string
}.

Definition getItem (s : Storage) (k : string) : completion (option string) :=
  if readable s then Normal (items s !! k) else Throw SecurityError.

Definition setItem (s : Storage) (k v : string) : completion Storage :=
  if writable s
  then Normal {| readable := readable s; writable := writable s;
                 items := <[k := v]> (items s) |}
  else Throw QuotaExceededError.

End JS.

Import JS.

(** ** Theme Toggle Module *)

Module ThemeToggle.

Definition STORAGE_KEY : string := "theme-preference".

(** What the module reads and writes: the [data-theme] attribute of
    [document.documentElement], the [aria-label] of the
    [[data-theme-toggle]] element when the document has one, and
    [localStorage]. *)
Record page : Type := {
  data_theme : option string;
  toggle : option (option string);
  localStorage : Storage
}.

(** The listeners [init] registers. *)
Record listeners : Type := {
  toggle_click : bool;
  system_change : bool
}.

Definition getSavedTheme (p : page) : option string :=
  match getItem (localStorage p) STORAGE_KEY with
  | Normal v => v
  | Throw _ => None
  end.

Definition getSystemTheme (w : window) : string :=
  match matchMedia w with
  | Some mm => if mm "(prefers-color-scheme: dark)" then "dark" else "light"
  | None => "light"
  end.

Definition setTheme (theme : string) (save : bool) (p : page) : page :=
  let p1 := {| data_theme := Some theme; toggle := toggle p;
               localStorage := localStorage p |} in
  let p2 :=
    if save then
      match setItem (localStorage p1) STORAGE_KEY theme with
      | Normal s => {| data_theme := data_theme p1; toggle := toggle p1;
                       localStorage := s |}
      | Throw _ => p1
      end
    else p1 in
  match toggle p2 with
  | Some _ =>
      let label := if bool_decide (theme = "dark")
                   then "Switch to light mode" else "Switch to dark mode" in
      {| data_theme := data_theme p2; toggle := Some (Some label);
         localStorage := localStorage p2 |}
  | None => p2
  end.

Definition toggleTheme (p : page) : page :=
  let currentTheme := data_theme p in
  let newTheme :=
    if bool_decide (currentTheme = Some "dark") then "light" else "dark" in
  setTheme newTheme true p.

(** The callback [watchSystemTheme] hands to the media query list. *)
Definition onSystemChange (e_matches : bool) (p : page) : page :=
  if negb (truthy (getSavedTheme p))
  then setTheme (if e_matches then "dark" else "light") false p
  else p.

(** [watchSystemTheme] guards [window.matchMedia] but calls
    [addEventListener] on the MediaQueryList unguarded.  The result says
    whether the change listener got registered and how the call ended. *)
Definition watchSystemTheme (w : window) : bool * completion () :=
  match matchMedia w with
  | Some _ =>
      if mediaQueryList_addEventListener w then (true, Normal ())
      else (false, Throw TypeError)
  | None => (false, Normal ())
  end.

(** What [init] leaves behind, whether it returns or raises: the page with
    the initial theme applied and the listeners registered by then. *)
Definition init (w : window) (p : page) : page * listeners :=
  let savedTheme := getSavedTheme p in
  let systemTheme := getSystemTheme w in
  let initialTheme := or_else savedTheme systemTheme in
  let p' := setTheme initialTheme false p in
  (p', {| toggle_click := bool_decide (is_Some (toggle p'));
          system_change := (watchSystemTheme w).1 |}).

(** How [init] ends.  Its last statement, [this.watchSystemTheme()], is the
    only one that can raise; everything [init] does to the page and the
    toggle's click listener come before it. *)
Definition init_completion (w : window) : completion () :=
  (watchSystemTheme w).2.

(** Events the registered listeners react to. *)
Inductive event : Type :=
| ToggleClick
| SystemChange (e_matches : bool).

Definition dispatch (ls : listeners) (ev : event) (p : page) : page :=
  match ev with
  | ToggleClick => if toggle_click ls then toggleTheme p else p
  | SystemChange m => if system_change ls then onSystemChange m p else p
  end.

Definition run (ls : listeners) (evs : list event) (p : page) : page :=
  foldl (λ q ev, dispatch ls ev q) p evs.

(** The value stored under the preference key, read without going through
    the script (the storage's own content). *)
Definition persisted (p : page) : option string :=
  items (localStorage p) !! STORAGE_KEY.

(** The three ways in which the storage yields nothing [init] can use: reads
    raise, nothing is stored under the key, or the empty string is. *)
Definition no_saved_theme (p : page) : Prop :=
  readable (localStorage p) = false ∨ persisted p = None ∨ persisted p = Some "".

(** Whether the system reports a dark colour scheme. *)
Definition prefers_dark (w : window) : bool :=
  match matchMedia w with
  | Some mm => mm "(prefers-color-scheme: dark)"
  | None => false
  end.

End ThemeToggle.

(** ** Smooth Scroll Module *)

(** The script adds and subtracts pixel positions, which are JavaScript
    numbers.  The embedding is stated over any carrier with the three
    operations the script uses, so that nothing proved below depends on how
    the arithmetic rounds. *)
Class Number (num : Type) : Type := {
  num_add : num → num → num;
  num_sub : num → num → num;
  num_lit : Z → num
}.

#[export] Instance Z_Number : Number Z :=
  {| num_add := Z.add; num_sub := Z.sub; num_lit := λ z, z |}.

Module SmoothScroll.

Section WithNumber.
Context {num : Type} `{!Number num}.

(** pixels to offset for sticky header *)
Definition HEADER_OFFSET : num := num_lit 80.

(** An element, as far as [handleClick] looks at it:
    [getBoundingClientRect().top]. *)
Record Element : Type := { rect_top : num }.

Record ScrollToOptions : Type := { top : num; behavior : string }.

(** What [handleClick] reads: [document.querySelector], which raises a
    [SyntaxError] on a string that is not a selector and answers [null]
    (here [None]) when nothing matches, and [window.pageYOffset]. *)
Record document : Type := {
  querySelector : string → completion (option Element);
  pageYOffset : num
}.

(** What [handleClick] writes: the click event's [defaultPrevented] flag,
    the calls made to [window.scrollTo] (oldest first) and the URLs handed
    to [history.pushState] (latest first). *)
Record browser : Type := {
  defaultPrevented : bool;
  scrollTo_calls : list ScrollToOptions;
  pushState_urls : list string
}.

Definition preventDefault (b : browser) : browser :=
  {| defaultPrevented := true; scrollTo_calls := scrollTo_calls b;
     pushState_urls := pushState_urls b |}.

Definition scrollTo (o : ScrollToOptions) (b : browser) : browser :=
  {| defaultPrevented := defaultPrevented b;
     scrollTo_calls := (scrollTo_calls b ++ [o])%list;
     pushState_urls := pushState_urls b |}.

Definition pushState (url : string) (b : browser) : browser :=
  {| defaultPrevented := defaultPrevented b;
     scrollTo_calls := scrollTo_calls b;
     pushState_urls := url :: pushState_urls b |}.

(** The address fragment the page shows: the latest pushed one, if any. *)
Definition address_fragment (b : browser) : option string :=
  head (pushState_urls b).

(** [href] is [anchor.getAttribute('href')] at the time of the click. *)
Definition handleClick (d : document) (href : option string) (b : browser)
  : browser * completion () :=
  match href with
  | None => (b, Normal ())
  | Some h =>
      if negb (truthy href) || bool_decide (h = "#") then (b, Normal ())
      else
        match querySelector d h with
        | Throw e => (b, Throw e)
        | Normal None => (b, Normal ())
        | Normal (Some target) =>
            let b1 := preventDefault b in
            let targetPosition := num_add (rect_top target) (pageYOffset d) in
            let offsetPosition := num_sub targetPosition HEADER_OFFSET in
            let b2 := scrollTo {| top := offsetPosition;
                                  behavior := "smooth" |} b1 in
            (pushState h b2, Normal ())
        end
  end.

(** [init] binds the handler to the anchors selected by [a[href^="#"]]; an
    anchor is given by its [href] attribute, and the result lists the
    positions of the bound ones. *)
Fixpoint select_anchors (i : nat) (anchors : list (option string)) : list nat :=
  match anchors with
  | [] => []
  | Some h :: rest =>
      if String.prefix "#" h then i :: select_anchors (S i) rest
      else select_anchors (S i) rest
  | None :: rest => select_anchors (S i) rest
  end.

Definition init (anchors : list (option string)) : list nat :=
  select_anchors 0 anchors.

End WithNumber.

End SmoothScroll.

(** ** Scroll Reveal Module *)

Module ScrollReveal.

(** IntersectionObserverEntry; the target is the position of the element in
    the document. *)
Record entry : Type := { target : nat; isIntersecting : bool }.

(** Calls made to the IntersectionObserver interface. *)
Inductive call : Type :=
| NewObserver
| Observe (el : nat)
| Unobserve (el : nat).

(** [dom]: the class list of every element of the document;
    [observer]: [this.observer], given by the targets it watches, [None]
    while the field is undefined; [calls]: the observer calls made so far,
    oldest first. *)
Record state : Type := {
  dom : list (list string);
  observer : option (gset nat);
  calls : list call
}.

(** The selector ['.reveal, .stagger-children']. *)
Definition candidate (cl : list string) : bool :=
  contains "reveal" cl || contains "stagger-children" cl.

Fixpoint select_from (i : nat) (d : list (list string)) : list nat :=
  match d with
  | [] => []
  | cl :: rest =>
      if candidate cl then i :: select_from (S i) rest
      else select_from (S i) rest
  end.

Definition querySelectorAll (d : list (list string)) : list nat :=
  select_from 0 d.

(** [el.classList.add('revealed')] *)
Definition mark_revealed (el : nat) (d : list (list string))
  : list (list string) :=
  alter (classList_add "revealed") el d.

Definition revealed (el : nat) (st : state) : bool :=
  match dom st !! el with
  | Some cl => contains "revealed" cl
  | None => false
  end.

Definition observe (el : nat) (st : state) : state :=
  {| dom := dom st;
     observer := (λ obs, {[el]} ∪ obs) <$> observer st;
     calls := (calls st ++ [Observe el])%list |}.

Definition init (w : window) (st : state) : state * completion () :=
  match matchMedia w with
  | None => (st, Throw TypeError)
  | Some mm =>
      if mm "(prefers-reduced-motion: reduce)" then
        ({| dom := foldl (λ d el, mark_revealed el d) (dom st)
                         (querySelectorAll (dom st));
            observer := observer st;
            calls := calls st |}, Normal ())
      else if has_IntersectionObserver w then
        let st1 := {| dom := dom st; observer := Some ∅;
                      calls := (calls st ++ [NewObserver])%list |} in
        (foldl (λ s el, observe el s) st1 (querySelectorAll (dom st)),
         Normal ())
      else (st, Throw ReferenceError)
  end.

(** The body of the [forEach] callback of [handleIntersection]. *)
Definition reveal_entry (e : entry) (st : state) : state * completion () :=
  if isIntersecting e then
    let d := mark_revealed (target e) (dom st) in
    match observer st with
    | Some obs =>
        ({| dom := d; observer := Some (obs ∖ {[target e]});
            calls := (calls st ++ [Unobserve (target e)])%list |}, Normal ())
    | None =>
        ({| dom := d; observer := None; calls := calls st |}, Throw TypeError)
    end
  else (st, Normal ()).

(** [Array.prototype.forEach] with a callback that may raise: the first
    exception ends the loop. *)
Fixpoint forEach {A S : Type} (f : A → S → S * completion ())
    (l : list A) (s : S) : S * completion () :=
  match l with
  | [] => (s, Normal ())
  | a :: rest =>
      match f a s with
      | (s', Normal _) => forEach f rest s'
      | (s', Throw e) => (s', Throw e)
      end
  end.

Definition handleIntersection (entries : list entry) (st : state)
  : state * completion () :=
  forEach reveal_entry entries st.

(** The observer reports only on targets it is watching. *)
Definition deliverable (entries : list entry) (st : state) : bool :=
  match observer st with
  | Some obs => forallb (λ e, bool_decide (target e ∈ obs)) entries
  | None => false
  end.

(** A sequence of callbacks of the observer: [None] when some batch is not
    one the observer can deliver in the state reached. *)
Fixpoint callbacks (batches : list (list entry)) (st : state) : option state :=
  match batches with
  | [] => Some st
  | b :: rest =>
      if deliverable b st then
        match handleIntersection b st with
        | (st', Normal _) => callbacks rest st'
        | (_, Throw _) => None
        end
      else None
  end.

(** How many of the batches take [el] from pending to revealed. *)
Fixpoint transitions (el : nat) (batches : list (list entry)) (st : state)
  : nat :=
  match batches with
  | [] => 0
  | b :: rest =>
      let st' := (handleIntersection b st).1 in
      (if negb (revealed el st) && revealed el st' then 1 else 0)
      + transitions el rest st'
  end.

End ScrollReveal.

(** ** Mobile Menu Module *)

Module MobileMenu.

(** The document as [init] sees it: the [aria-expanded] attribute of the
    [[data-mobile-menu-toggle]] element and the class list of the
    [[data-mobile-menu]] element, each [None] when the element is missing. *)
Record document : Type := {
  toggle_element : option (option string);
  menu_element : option (list string)
}.

(** The two elements once [init] has found both. *)
Record state : Type := {
  menu_classList : list string;
  aria_expanded : option string
}.

Definition is_open (st : state) : bool := contains "is-open" (menu_classList st).

Definition toggleMenu (st : state) : state :=
  let '(cl, isOpen) := classList_toggle "is-open" (menu_classList st) in
  {| menu_classList := cl;
     aria_expanded := Some (if isOpen then "true" else "false") |}.

Definition closeMenu (st : state) : state :=
  {| menu_classList := classList_remove "is-open" (menu_classList st);
     aria_expanded := Some "false" |}.

(** The document click listener; the flags are [this.menu.contains(e.target)]
    and [this.toggle.contains(e.target)]. *)
Definition onDocumentClick (in_menu in_toggle : bool) (st : state) : state :=
  if negb in_menu && negb in_toggle then closeMenu st else st.

Definition onKeydown (key : string) (st : state) : state :=
  if bool_decide (key = "Escape") then closeMenu st else st.

(** [init] registers the listeners only when both elements exist. *)
Definition init (d : document) : option state :=
  match toggle_element d, menu_element d with
  | Some a, Some cl => Some {| menu_classList := cl; aria_expanded := a |}
  | _, _ => None
  end.

(** The events the registered listeners react to.  A click whose target
    lies in the toggle control first reaches the control's own listener and
    then, bubbling, the document's. *)
Inductive event : Type :=
| Click (in_menu in_toggle : bool)
| Keydown (key : string).

Definition dispatch (ev : event) (st : state) : state :=
  match ev with
  | Click in_menu in_toggle =>
      let st1 := if in_toggle then toggleMenu st else st in
      onDocumentClick in_menu in_toggle st1
  | Keydown key => onKeydown key st
  end.

Definition run (evs : list event) (st : state) : state :=
  foldl (λ s ev, dispatch ev s) st evs.

(** The button's [aria-expanded] says what the panel's class list says. *)
Definition mirrored (st : state) : bool :=
  bool_decide (aria_expanded st = Some (if is_open st then "true" else "false")).

End MobileMenu.

(** ** Card Effects Module *)

Module CardEffects.

(** The two inline style properties the handlers write. *)
Record style : Type := {
  transform : option string;
  transition : option string
}.

(** [svgs]: the inline style of every [svg] element of the document;
    [skill_cards]: for each element matched by ['.card-skill'], whether it
    has a ['.card-icon'] descendant; [legacy_cards]: for each element
    matched by ['#what .group'], its first [svg] descendant (a position in
    [svgs]), [None] when it has none.  Two cards may name the same [svg]. *)
Record page : Type := {
  svgs : list style;
  skill_cards : list bool;
  legacy_cards : list (option nat)
}.

(** What [init] registers: the skill cards that got the (empty) handlers,
    and for each legacy card the [svg] its two handlers captured. *)
Record listeners : Type := {
  skill_bound : list nat;
  legacy_bound : list (option nat)
}.

Fixpoint select_cards (i : nat) (cards : list bool) : list nat :=
  match cards with
  | [] => []
  | has_icon :: rest =>
      if has_icon then i :: select_cards (S i) rest
      else select_cards (S i) rest
  end.

Definition init (p : page) : listeners :=
  {| skill_bound := select_cards 0 (skill_cards p);
     legacy_bound := legacy_cards p |}.

Definition onMouseEnter (s : style) : style :=
  {| transform := Some "scale(1.1) rotate(5deg)";
     transition := Some "transform 0.4s cubic-bezier(0.34, 1.56, 0.64, 1)" |}.

Definition onMouseLeave (s : style) : style :=
  {| transform := Some "scale(1) rotate(0deg)"; transition := transition s |}.

Inductive event : Type :=
| SkillMouseEnter (card : nat)
| SkillMouseLeave (card : nat)
| MouseEnter (card : nat)
| MouseLeave (card : nat).

Definition hover (f : style → style) (ls : listeners) (card : nat) (p : page)
  : page :=
  match legacy_bound ls !! card with
  | Some (Some svg) =>
      {| svgs := alter f svg (svgs p); skill_cards := skill_cards p;
         legacy_cards := legacy_cards p |}
  | _ => p
  end.

Definition dispatch (ls : listeners) (ev : event) (p : page) : page :=
  match ev with
  | SkillMouseEnter _ | SkillMouseLeave _ => p
  | MouseEnter card => hover onMouseEnter ls card p
  | MouseLeave card => hover onMouseLeave ls card p
  end.

Definition run (ls : listeners) (evs : list event) (p : page) : page :=
  foldl (λ q ev, dispatch ls ev q) p evs.

End CardEffects.

(** ** Hero Animation Module *)

Module HeroAnimation.

Record style : Type := {
  opacity : option string;
  transform : option string;
  transition : option string
}.

(** The first element matched by ['.hero-title'] and the first matched by
    ['#introduction h1'], as positions among the page's elements. *)
Record document : Type := {
  hero_title : option nat;
  intro_h1 : option nat
}.

(** [elements]: the inline style of every element; [timers]: the pending
    [setTimeout] callbacks, oldest first, each with its delay and the
    heading its closure captured. *)
Record state : Type := {
  elements : list style;
  timers : list (nat * nat)
}.

Definition set_initial (s : style) : style :=
  {| opacity := Some "0"; transform := Some "translateY(20px)";
     transition := transition s |}.

Definition set_final (s : style) : style :=
  {| opacity := Some "1"; transform := Some "translateY(0)";
     transition := Some "opacity 0.8s ease-out, transform 0.8s ease-out" |}.

(** [document.querySelector('.hero-title') ||
     document.querySelector('#introduction h1')] *)
Definition find_title (d : document) : option nat :=
  match hero_title d with
  | Some el => Some el
  | None => intro_h1 d
  end.

Definition init (w : window) (d : document) (st : state)
  : state * completion () :=
  match matchMedia w with
  | None => (st, Throw TypeError)
  | Some mm =>
      if mm "(prefers-reduced-motion: reduce)" then (st, Normal ())
      else
        match find_title d with
        | None => (st, Normal ())
        | Some heroTitle =>
            ({| elements := alter set_initial heroTitle (elements st);
                timers := (timers st ++ [(100, heroTitle)])%list |},
             Normal ())
        end
  end.

(** The timer callback. *)
Definition onTimeout (heroTitle : nat) (els : list style) : list style :=
  alter set_final heroTitle els.

(** Every pending timer expires, in the order it was set. *)
Definition expire (st : state) : state :=
  {| elements := foldl (λ els t, onTimeout t.2 els) (elements st) (timers st);
     timers := [] |}.

End HeroAnimation.

(** ** Initialize All Modules *)

Module Main.

Record page : Type := {
  theme : ThemeToggle.page;
  anchors : list (option string);
  reveal : ScrollReveal.state;
  cards : CardEffects.page;
  hero_document : HeroAnimation.document;
  hero : HeroAnimation.state;
  menu : MobileMenu.document
}.

(** What each module's [init] registered; [None] for a module whose [init]
    was not reached.  For the theme these are the listeners registered
    before [ThemeToggle.init] returned or raised; for the menu the inner
    option is [MobileMenu.init]'s own answer. *)
Record registered : Type := {
  theme_listeners : option ThemeToggle.listeners;
  anchor_listeners : option (list nat);
  card_listeners : option CardEffects.listeners;
  menu_listeners : option (option MobileMenu.state)
}.

Definition init (w : window) (p : page) : page * registered * completion () :=
  let '(th, ls) := ThemeToggle.init w (theme p) in
  match ThemeToggle.init_completion w with
  | Throw e =>
      ({| theme := th; anchors := anchors p; reveal := reveal p;
          cards := cards p; hero_document := hero_document p; hero := hero p;
          menu := menu p |},
       {| theme_listeners := Some ls; anchor_listeners := None;
          card_listeners := None; menu_listeners := None |},
       Throw e)
  | Normal _ =>
      let bound := SmoothScroll.init (anchors p) in
      match ScrollReveal.init w (reveal p) with
      | (rv, Throw e) =>
          ({| theme := th; anchors := anchors p; reveal := rv;
              cards := cards p; hero_document := hero_document p;
              hero := hero p; menu := menu p |},
           {| theme_listeners := Some ls; anchor_listeners := Some bound;
              card_listeners := None; menu_listeners := None |},
           Throw e)
      | (rv, Normal _) =>
          let cls := CardEffects.init (cards p) in
          match HeroAnimation.init w (hero_document p) (hero p) with
          | (h, Throw e) =>
              ({| theme := th; anchors := anchors p; reveal := rv;
                  cards := cards p; hero_document := hero_document p;
                  hero := h; menu := menu p |},
               {| theme_listeners := Some ls; anchor_listeners := Some bound;
                  card_listeners := Some cls; menu_listeners := None |},
               Throw e)
          | (h, Normal _) =>
              ({| theme := th; anchors := anchors p; reveal := rv;
                  cards := cards p; hero_document := hero_document p;
                  hero := h; menu := menu p |},
               {| theme_listeners := Some ls; anchor_listeners := Some bound;
                  card_listeners := Some cls;
                  menu_listeners := Some (MobileMenu.init (menu p)) |},
               Normal ())
          end
      end
  end.

(** The last lines of the script: run [init] at once unless the document is
    still loading, in which case it waits for [DOMContentLoaded]. *)
Inductive startup : Type :=
| Ran (r : page * registered * completion ())
| Waiting.

Definition start (readyState : string) (w : window) (p : page) : startup :=
  if bool_decide (readyState = "loading") then Waiting else Ran (init w p).

Definition onDOMContentLoaded (s : startup) (w : window) (p : page) : startup :=
  match s with
  | Waiting => Ran (init w p)
  | Ran r => Ran r
  end.

End Main.

(** ** Selecting elements by position *)

Module Selection.

(** The positions, counted from [i], of the elements of [l] that satisfy
    [f]: what [querySelectorAll] followed by a test in the [forEach] body
    keeps. *)
Fixpoint select_indices {A : Type} (f : A → bool) (i : nat) (l : list A)
  : list nat :=
  match l with
  | [] => []
  | x :: rest =>
      if f x then i :: select_indices f (S i) rest
      else select_indices f (S i) rest
  end.

(** The test [a[href^="#"]] makes on an anchor's [href]. *)
Definition is_fragment_link (href : option string) : bool :=
  match href with
  | Some h => String.prefix "#" h
  | None => false
  end.

End Selection.

(** ** Concrete pages used to exercise the definitions *)

Module Samples.

Definition dark_query : string := "(prefers-color-scheme: dark)".

(** A system that prefers dark, one that prefers light, and an environment
    without [matchMedia]. *)
Definition window_dark : window :=
  {| matchMedia := Some (λ q, bool_decide (q = dark_query));
     mediaQueryList_addEventListener := true;
     has_IntersectionObserver := true |}.

Definition window_light : window :=
  {| matchMedia := Some (λ _, false); mediaQueryList_addEventListener := true;
     has_IntersectionObserver := true |}.

Definition window_reduced_motion : window :=
  {| matchMedia := Some (λ q, bool_decide (q = "(prefers-reduced-motion: reduce)"));
     mediaQueryList_addEventListener := true;
     has_IntersectionObserver := true |}.

Definition storage_empty : Storage :=
  {| readable := true; writable := true; items := ∅ |}.

Definition storage_holding (v : string) : Storage :=
  {| readable := true; writable := true;
     items := {[ ThemeToggle.STORAGE_KEY := v ]} |}.

(** Storage whose every access raises. *)
Definition storage_denied : Storage :=
  {| readable := false; writable := false; items := ∅ |}.

(** A freshly loaded page with a toggle button and the given storage. *)
Definition fresh_page (s : Storage) : ThemeToggle.page :=
  {| ThemeToggle.data_theme := None;
     ThemeToggle.toggle := Some None;
     ThemeToggle.localStorage := s |}.

(** The page once [init] ran on storage holding the string ["blue"]. *)
Definition page_after_init_blue : ThemeToggle.page :=
  (ThemeToggle.init window_dark (fresh_page (storage_holding "blue"))).1.

(** A document for the anchor links: [#section2] names an element whose
    top edge is 500 pixels below the top of the viewport; [#2024] is not a
    selector (an identifier cannot start with a digit), so the lookup raises
    a [SyntaxError] for it, even though [id="2024"] is a legal id; every
    other selector matches nothing.  The page is scrolled by 120 pixels. *)
Definition anchor_document : SmoothScroll.document (num := Z) :=
  {| SmoothScroll.querySelector := λ sel,
       if bool_decide (sel = "#section2")
       then Normal (Some {| SmoothScroll.rect_top := 500%Z |})
       else if bool_decide (sel = "#2024") then Throw SyntaxError
       else Normal None;
     SmoothScroll.pageYOffset := 120%Z |}.

Definition browser_idle : SmoothScroll.browser (num := Z) :=
  {| SmoothScroll.defaultPrevented := false;
     SmoothScroll.scrollTo_calls := [];
     SmoothScroll.pushState_urls := [] |}.

(** A page whose navigation button carries no [aria-expanded] attribute and
    whose panel is closed. *)
Definition menu_document : MobileMenu.document :=
  {| MobileMenu.toggle_element := Some None;
     MobileMenu.menu_element := Some ["nav"] |}.

Definition menu_closed_unlabelled : MobileMenu.state :=
  {| MobileMenu.menu_classList := ["nav"];
     MobileMenu.aria_expanded := None |}.

(** A freshly loaded page with three elements, two of them candidates for
    the reveal, and no observer yet. *)
Definition reveal_page : ScrollReveal.state :=
  {| ScrollReveal.dom := [["reveal"]; ["hero"]; ["stagger-children"; "grid"]];
     ScrollReveal.observer := None;
     ScrollReveal.calls := [] |}.

(** The same page once [init] ran without reduced motion. *)
Definition reveal_page_observing : ScrollReveal.state :=
  (ScrollReveal.init window_light reveal_page).1.

(** An environment without [matchMedia]. *)
Definition window_bare : window :=
  {| matchMedia := None; mediaQueryList_addEventListener := false;
     has_IntersectionObserver := true |}.

(** A system without reduced motion and without IntersectionObserver. *)
Definition window_no_observer : window :=
  {| matchMedia := Some (λ _, false); mediaQueryList_addEventListener := true;
     has_IntersectionObserver := false |}.

(** A system whose MediaQueryList has [addListener] but no
    [addEventListener]; everything else is available. *)
Definition window_old_media_query : window :=
  {| matchMedia := Some (λ _, false); mediaQueryList_addEventListener := false;
     has_IntersectionObserver := true |}.

(** Storage that can be read but refuses every write. *)
Definition storage_full : Storage :=
  {| readable := true; writable := false; items := ∅ |}.

Definition menu_open : MobileMenu.state :=
  {| MobileMenu.menu_classList := ["nav"; "is-open"];
     MobileMenu.aria_expanded := Some "true" |}.

(** Three legacy cards: the first and the third have an [svg], the second has
    none; a third [svg] belongs to no card. *)
Definition cards_page : CardEffects.page :=
  {| CardEffects.svgs :=
       [ {| CardEffects.transform := None; CardEffects.transition := None |};
         {| CardEffects.transform := None; CardEffects.transition := None |};
         {| CardEffects.transform := None; CardEffects.transition := None |} ];
     CardEffects.skill_cards := [true; false];
     CardEffects.legacy_cards := [Some 0; None; Some 1] |}.

Definition plain_style : HeroAnimation.style :=
  {| HeroAnimation.opacity := None; HeroAnimation.transform := None;
     HeroAnimation.transition := None |}.

(** A page with no ['.hero-title'] whose heading is the second element. *)
Definition hero_document : HeroAnimation.document :=
  {| HeroAnimation.hero_title := None; HeroAnimation.intro_h1 := Some 1 |}.

Definition hero_state : HeroAnimation.state :=
  {| HeroAnimation.elements := [plain_style; plain_style];
     HeroAnimation.timers := [] |}.

Definition whole_page : Main.page :=
  {| Main.theme := fresh_page storage_empty;
     Main.anchors := [Some "#section2"; Some "https://example.org/"; None];
     Main.reveal := reveal_page;
     Main.cards := cards_page;
     Main.hero_document := hero_document;
     Main.hero := hero_state;
     Main.menu := menu_document |}.

End Samples.

(** * Properties *)

(** ** Theme Toggle *)

Section ThemeToggleFacts.
Import ThemeToggle.

Lemma data_theme_setTheme theme save p :
  data_theme (setTheme theme save p) = Some theme.
Proof.
  unfold setTheme, setItem; cbn.
  destruct save, (writable (localStorage p)), (toggle p); reflexivity.
Qed.

Lemma localStorage_setTheme_unsaved theme p :
  localStorage (setTheme theme false p) = localStorage p.
Proof. unfold setTheme. destruct (toggle p); reflexivity. Qed.

Lemma persisted_setTheme_saved theme p :
  writable (localStorage p) = true →
  persisted (setTheme theme true p) = Some theme.
Proof.
  intros Hw. unfold persisted, setTheme, setItem. cbn. rewrite Hw.
  destruct (toggle p); cbn; apply lookup_insert_eq.
Qed.

Lemma localStorage_setTheme_write_fails theme p :
  writable (localStorage p) = false →
  localStorage (setTheme theme true p) = localStorage p.
Proof.
  intros Hw. unfold setTheme, setItem. cbn. rewrite Hw.
  destruct (toggle p); reflexivity.
Qed.

Lemma readable_setTheme theme save p :
  readable (localStorage (setTheme theme save p)) = readable (localStorage p).
Proof.
  unfold setTheme, setItem; cbn.
  destruct save, (writable (localStorage p)), (toggle p); reflexivity.
Qed.

(** What [getSavedTheme] answers, in terms of the storage itself. *)
Lemma getSavedTheme_readable p :
  readable (localStorage p) = true → getSavedTheme p = persisted p.
Proof. intros Hr. unfold getSavedTheme, getItem, persisted. by rewrite Hr. Qed.

Lemma getSavedTheme_unreadable p :
  readable (localStorage p) = false → getSavedTheme p = None.
Proof. intros Hr. unfold getSavedTheme, getItem. by rewrite Hr. Qed.

Lemma truthy_Some s : s ≠ "" → truthy (Some s) = true.
Proof. intros Hs. unfold truthy. by apply bool_decide_eq_true. Qed.

Lemma or_else_truthy s b : s ≠ "" → or_else (Some s) b = s.
Proof. intros Hs. unfold or_else. by rewrite truthy_Some. Qed.

Lemma or_else_falsy a b : truthy a = false → or_else a b = b.
Proof. unfold or_else. destruct a; [intros -> |]; reflexivity. Qed.

Lemma no_saved_theme_falsy p : no_saved_theme p → truthy (getSavedTheme p) = false.
Proof.
  intros [Hr | [Hn | He]].
  - by rewrite getSavedTheme_unreadable.
  - destruct (readable (localStorage p)) eqn:Hr.
    + by rewrite getSavedTheme_readable, Hn.
    + by rewrite getSavedTheme_unreadable.
  - destruct (readable (localStorage p)) eqn:Hr.
    + by rewrite getSavedTheme_readable, He.
    + by rewrite getSavedTheme_unreadable.
Qed.

Lemma init_applies w p :
  data_theme (init w p).1 = Some (or_else (getSavedTheme p) (getSystemTheme w)).
Proof. unfold init. cbn. apply data_theme_setTheme. Qed.

Lemma init_applies_saved w p s :
  readable (localStorage p) = true → persisted p = Some s → s ≠ "" →
  data_theme (init w p).1 = Some s.
Proof.
  intros Hr Hs Hne. rewrite init_applies, getSavedTheme_readable, Hs by done.
  by rewrite or_else_truthy.
Qed.

Lemma init_applies_system w p :
  no_saved_theme p → data_theme (init w p).1 = Some (getSystemTheme w).
Proof.
  intros Hno. rewrite init_applies.
  by rewrite or_else_falsy by by apply no_saved_theme_falsy.
Qed.

Lemma getSystemTheme_prefers_dark w :
  getSystemTheme w = if prefers_dark w then "dark" else "light".
Proof. unfold getSystemTheme, prefers_dark. by destruct (matchMedia w). Qed.

End ThemeToggleFacts.

Section ThemeToggleClaims.
Import ThemeToggle Samples.

Lemma onSystemChange_saved m p :
  truthy (getSavedTheme p) = true → onSystemChange m p = p.
Proof. intros Ht. unfold onSystemChange. by rewrite Ht. Qed.

Lemma onSystemChange_unsaved m p :
  truthy (getSavedTheme p) = false →
  onSystemChange m p = setTheme (if m then "dark" else "light") false p.
Proof. intros Ht. unfold onSystemChange. by rewrite Ht. Qed.

Lemma toggleTheme_applied p :
  data_theme (toggleTheme p) =
  Some (if bool_decide (data_theme p = Some "dark") then "light" else "dark").
Proof. unfold toggleTheme. apply data_theme_setTheme. Qed.

Lemma toggleTheme_applied_nonempty p :
  ∃ s, data_theme (toggleTheme p) = Some s ∧ s ≠ "".
Proof.
  rewrite toggleTheme_applied. case_bool_decide; eexists; split; done.
Qed.

(** A toggle on storage that accepts reads and writes leaves the choice
    where [getSavedTheme] finds it. *)
Lemma toggleTheme_persists p :
  readable (localStorage p) = true → writable (localStorage p) = true →
  getSavedTheme (toggleTheme p) = data_theme (toggleTheme p).
Proof.
  intros Hr Hw. rewrite getSavedTheme_readable.
  - unfold toggleTheme. by rewrite persisted_setTheme_saved, data_theme_setTheme.
  - unfold toggleTheme. by rewrite readable_setTheme.
Qed.

Lemma run_system_changes_saved ls ms p :
  truthy (getSavedTheme p) = true →
  run ls (SystemChange <$> ms) p = p.
Proof.
  intros Ht. unfold run. induction ms as [| m ms IH]; [done |].
  cbn. destruct (system_change ls); [rewrite onSystemChange_saved by done |];
    exact IH.
Qed.

(** C1. The theme [init] applies follows the precedence persisted value,
    then system preference, then ['light']: a non-empty string read from
    storage is applied whatever the system prefers; when storage yields
    nothing (nothing stored, the empty string, or a read that raises) a dark
    system preference gives ['dark'] and anything else gives ['light'].  In
    particular nothing persisted with a dark system gives ['dark'], and a
    persisted ['light'] wins over any system preference. *)
Theorem init_theme_precedence (w : window) (p : page) :
  (∀ s, readable (localStorage p) = true → persisted p = Some s → s ≠ "" →
        data_theme (init w p).1 = Some s) ∧
  (no_saved_theme p → prefers_dark w = true →
        data_theme (init w p).1 = Some "dark") ∧
  (no_saved_theme p → prefers_dark w = false →
        data_theme (init w p).1 = Some "light") ∧
  (persisted p = None → prefers_dark w = true →
        data_theme (init w p).1 = Some "dark") ∧
  (readable (localStorage p) = true → persisted p = Some "light" →
        data_theme (init w p).1 = Some "light").
Proof.
  assert (Hsys : ∀ d, no_saved_theme p → prefers_dark w = d →
            data_theme (init w p).1 = Some (if d then "dark" else "light")).
  { intros d Hno <-. rewrite init_applies_system by done.
    by rewrite getSystemTheme_prefers_dark. }
  split; [intros s; apply init_applies_saved |].
  split; [intros Hno Hd; exact (Hsys true Hno Hd) |].
  split; [intros Hno Hd; exact (Hsys false Hno Hd) |].
  split.
  - intros Hn Hd. apply (Hsys true); [right; by left | done].
  - intros Hr Hl. by apply init_applies_saved.
Qed.

Lemma init_theme_precedence_witness :
  data_theme (init window_light (fresh_page (storage_holding "dark"))).1
    = Some "dark"
  ∧ data_theme (init window_dark (fresh_page storage_empty)).1 = Some "dark"
  ∧ data_theme (init window_light (fresh_page storage_denied)).1 = Some "light".
Proof.
  split; [| split].
  - apply (proj1 (init_theme_precedence window_light
                    (fresh_page (storage_holding "dark"))) "dark");
      [reflexivity | apply lookup_singleton_eq | discriminate].
  - apply (proj1 (proj2 (init_theme_precedence window_dark
                           (fresh_page storage_empty))));
      [right; left; apply lookup_empty | reflexivity].
  - apply (proj1 (proj2 (proj2 (init_theme_precedence window_light
                                  (fresh_page storage_denied)))));
      [left; reflexivity | reflexivity].
Defined.

(** C2. A system colour-scheme change leaves the whole page as it is when
    a (non-empty) preference can be read from storage; when storage yields
    nothing the handler applies the new system theme and leaves storage
    untouched.  Hence once a toggle has persisted its choice, no sequence of
    change events moves the applied theme away from that choice. *)
Theorem system_change_respects_saved_choice :
  (∀ m p s, readable (localStorage p) = true → persisted p = Some s → s ≠ "" →
            onSystemChange m p = p) ∧
  (∀ m p, no_saved_theme p →
          data_theme (onSystemChange m p) = Some (if m then "dark" else "light")
          ∧ localStorage (onSystemChange m p) = localStorage p) ∧
  (∀ ls p ms, getSavedTheme (toggleTheme p) = data_theme (toggleTheme p) →
              run ls (SystemChange <$> ms) (toggleTheme p) = toggleTheme p).
Proof.
  split; [| split].
  - intros m p s Hr Hs Hne. apply onSystemChange_saved.
    rewrite getSavedTheme_readable, Hs by done. by apply truthy_Some.
  - intros m p Hno.
    rewrite onSystemChange_unsaved by by apply no_saved_theme_falsy.
    by rewrite data_theme_setTheme, localStorage_setTheme_unsaved.
  - intros ls p ms Hsaved. apply run_system_changes_saved.
    rewrite Hsaved. destruct (toggleTheme_applied_nonempty p) as (s & -> & Hs).
    by apply truthy_Some.
Qed.

Lemma system_change_respects_saved_choice_witness :
  let ls := (init window_light (fresh_page storage_empty)).2 in
  let p := (init window_light (fresh_page storage_empty)).1 in
  data_theme (toggleTheme p) = Some "dark"
  ∧ run ls (SystemChange <$> [false; true; false]) (toggleTheme p)
    = toggleTheme p.
Proof.
  split; [reflexivity |].
  apply (proj2 (proj2 system_change_respects_saved_choice)).
  apply toggleTheme_persists; reflexivity.
Defined.

(** C5, as the specification states it, fails: a stored string that is
    neither ['light'] nor ['dark'] is not treated as "no preference".  With
    ["blue"] stored and a system that prefers dark, [init] applies ["blue"],
    not the system theme. *)
Lemma corrupted_value_is_applied :
  let p := fresh_page (storage_holding "blue") in
  persisted p = Some "blue"
  ∧ getSystemTheme window_dark = "dark"
  ∧ data_theme (init window_dark p).1 = Some "blue"
  ∧ data_theme (init window_dark p).1 ≠ Some (getSystemTheme window_dark).
Proof.
  cbn zeta. split; [apply lookup_singleton_eq |].
  split; [reflexivity |].
  assert (H : data_theme (init window_dark (fresh_page (storage_holding "blue"))).1
              = Some "blue").
  { apply init_applies_saved;
      [reflexivity | apply lookup_singleton_eq | discriminate]. }
  split; [exact H |]. rewrite H. discriminate.
Qed.

(** C5, amended. At startup a missing stored value, the empty string, and
    a storage read that raises are each treated as no preference: [init]
    applies the system theme (['dark'] when the system prefers dark,
    otherwise ['light']) and the read error is not propagated.  Every other
    stored string is applied as it is, whether or not it is ['light'] or
    ['dark']. *)
Theorem init_saved_theme_not_validated (w : window) (p : page) :
  (no_saved_theme p →
     data_theme (init w p).1
     = Some (if prefers_dark w then "dark" else "light")) ∧
  (∀ s, readable (localStorage p) = true → persisted p = Some s → s ≠ "" →
     data_theme (init w p).1 = Some s).
Proof.
  split.
  - intros Hno. rewrite init_applies_system by done.
    by rewrite getSystemTheme_prefers_dark.
  - intros s. apply init_applies_saved.
Qed.

Lemma init_saved_theme_not_validated_witness :
  data_theme (init window_dark (fresh_page storage_denied)).1 = Some "dark"
  ∧ data_theme (init window_dark (fresh_page (storage_holding "blue"))).1
    = Some "blue".
Proof.
  split.
  - apply (proj1 (init_saved_theme_not_validated window_dark
                    (fresh_page storage_denied))).
    left; reflexivity.
  - apply (proj2 (init_saved_theme_not_validated window_dark
                    (fresh_page (storage_holding "blue"))) "blue");
      [reflexivity | apply lookup_singleton_eq | discriminate].
Defined.

(** C8, as the specification states it, fails twice over.  On the page
    [init] leaves behind when ["blue"] was stored, two toggles end on
    ['light'], not on ["blue"]; and when storage refuses writes, nothing is
    persisted although the applied theme is back at ['light']. *)
Lemma toggle_twice_not_restored :
  (data_theme page_after_init_blue = Some "blue"
   ∧ data_theme (toggleTheme (toggleTheme page_after_init_blue)) = Some "light"
   ∧ data_theme (toggleTheme (toggleTheme page_after_init_blue))
     ≠ data_theme page_after_init_blue)
  ∧
  (let p := (init window_light (fresh_page storage_denied)).1 in
   data_theme (toggleTheme (toggleTheme p)) = Some "light"
   ∧ persisted (toggleTheme (toggleTheme p)) = None
   ∧ persisted (toggleTheme (toggleTheme p))
     ≠ data_theme (toggleTheme (toggleTheme p))).
Proof.
  assert (Hblue : data_theme page_after_init_blue = Some "blue").
  { unfold page_after_init_blue. apply init_applies_saved;
      [reflexivity | apply lookup_singleton_eq | discriminate]. }
  split.
  - split; [exact Hblue |]. split; [reflexivity |].
    rewrite Hblue. discriminate.
  - cbn zeta. split; [reflexivity |].
    split; vm_compute; [reflexivity | discriminate].
Qed.

(** C8, amended. When the applied theme is ['light'] or ['dark'], two
    calls of [toggleTheme] bring it back to that value; and when storage
    accepts the write, the value persisted after the second call is the
    applied one, whatever the theme was before the first call. *)
Theorem toggleTheme_twice (p : page) :
  (data_theme p = Some "light" ∨ data_theme p = Some "dark" →
   data_theme (toggleTheme (toggleTheme p)) = data_theme p)
  ∧ (writable (localStorage p) = true →
     persisted (toggleTheme (toggleTheme p))
     = data_theme (toggleTheme (toggleTheme p))).
Proof.
  split.
  - intros Hp. rewrite !toggleTheme_applied.
    destruct Hp as [-> | ->]; reflexivity.
  - intros Hw. unfold toggleTheme at 1 3.
    rewrite persisted_setTheme_saved, data_theme_setTheme; [done |].
    unfold toggleTheme, setTheme, setItem; cbn. rewrite Hw.
    by destruct (toggle p).
Qed.

Lemma toggleTheme_twice_witness :
  let p := (init window_dark (fresh_page storage_empty)).1 in
  data_theme p = Some "dark"
  ∧ data_theme (toggleTheme (toggleTheme p)) = data_theme p
  ∧ persisted (toggleTheme (toggleTheme p)) = Some "dark"
  ∧ persisted (toggleTheme (toggleTheme page_after_init_blue))
    = data_theme (toggleTheme (toggleTheme page_after_init_blue)).
Proof.
  cbn zeta. split; [reflexivity |].
  destruct (toggleTheme_twice (init window_dark (fresh_page storage_empty)).1)
    as [Hback Hsave].
  split; [apply Hback; right; reflexivity |].
  split.
  - rewrite (Hsave eq_refl), Hback; [reflexivity | right; reflexivity].
  - apply (proj2 (toggleTheme_twice page_after_init_blue)). reflexivity.
Defined.

(** C10, as the specification states it, fails in its "persists": on a
    page whose storage can be read but refuses every write, the applied
    theme ['light'] is not ['dark'], a toggle applies ['dark'], and nothing
    is persisted. *)
Lemma toggle_not_persisted_when_write_fails :
  let p := (init window_light (fresh_page storage_full)).1 in
  data_theme p = Some "light"
  ∧ data_theme p ≠ Some "dark"
  ∧ data_theme (toggleTheme p) = Some "dark"
  ∧ persisted (toggleTheme p) = None
  ∧ persisted (toggleTheme p) ≠ Some "dark".
Proof.
  cbn zeta. split; [reflexivity |]. split; [discriminate |].
  split; [reflexivity |].
  split; vm_compute; [reflexivity | discriminate].
Qed.

(** C10, amended. [toggleTheme] is defined on every state of the
    [data-theme] attribute and raises nothing.  When the attribute is
    anything but exactly ['dark'] (absent, ['light'], or an unrecognised
    string) it applies ['dark'] and attempts to persist it: storage holds
    ['dark'] afterwards when it accepts the write, and is left exactly as
    it was, the failure swallowed, when it refuses.  Exactly ['dark'] is
    the one value that flips to ['light'], with the same handling of the
    write. *)
Theorem toggleTheme_total (p : page) :
  (data_theme p ≠ Some "dark" →
     toggleTheme p = setTheme "dark" true p
     ∧ data_theme (toggleTheme p) = Some "dark"
     ∧ (writable (localStorage p) = true →
        persisted (toggleTheme p) = Some "dark")
     ∧ (writable (localStorage p) = false →
        localStorage (toggleTheme p) = localStorage p)) ∧
  (data_theme p = Some "dark" →
     toggleTheme p = setTheme "light" true p
     ∧ data_theme (toggleTheme p) = Some "light"
     ∧ (writable (localStorage p) = true →
        persisted (toggleTheme p) = Some "light")
     ∧ (writable (localStorage p) = false →
        localStorage (toggleTheme p) = localStorage p)) ∧
  (data_theme (toggleTheme p) = Some "light" → data_theme p = Some "dark").
Proof.
  split; [| split].
  - intros Hd.
    assert (E : toggleTheme p = setTheme "dark" true p).
    { unfold toggleTheme. by rewrite bool_decide_eq_false_2. }
    rewrite E. split; [done |]. split; [apply data_theme_setTheme |].
    split; [apply persisted_setTheme_saved
           | apply localStorage_setTheme_write_fails].
  - intros Hd.
    assert (E : toggleTheme p = setTheme "light" true p).
    { unfold toggleTheme. by rewrite bool_decide_eq_true_2. }
    rewrite E. split; [done |]. split; [apply data_theme_setTheme |].
    split; [apply persisted_setTheme_saved
           | apply localStorage_setTheme_write_fails].
  - rewrite toggleTheme_applied. by case_bool_decide.
Qed.

Lemma toggleTheme_total_witness :
  data_theme (toggleTheme page_after_init_blue) = Some "dark"
  ∧ data_theme (toggleTheme (fresh_page storage_empty)) = Some "dark"
  ∧ persisted (toggleTheme (fresh_page storage_empty)) = Some "dark"
  ∧ localStorage (toggleTheme (fresh_page storage_full)) = storage_full.
Proof.
  destruct (proj1 (toggleTheme_total page_after_init_blue)) as (_ & Hblue & _);
    [vm_compute; discriminate |].
  destruct (proj1 (toggleTheme_total (fresh_page storage_empty)))
    as (_ & Hfresh & Hsave & _); [discriminate |].
  destruct (proj1 (toggleTheme_total (fresh_page storage_full)))
    as (_ & _ & _ & Hfail); [discriminate |].
  split; [exact Hblue |]. split; [exact Hfresh |].
  split; [apply Hsave; reflexivity | apply Hfail; reflexivity].
Defined.

End ThemeToggleClaims.

(** ** Smooth Scroll *)

Section SmoothScrollClaims.
Import SmoothScroll Samples.
Context {num : Type} `{!Number num}.

Lemma handleClick_bare (d : document) (b : browser) :
  handleClick d None b = (b, Normal ())
  ∧ handleClick d (Some "") b = (b, Normal ())
  ∧ handleClick d (Some "#") b = (b, Normal ()).
Proof. repeat split. Qed.

Lemma handleClick_lookup (d : document) (h : string) (b : browser) :
  h ≠ "" → h ≠ "#" →
  handleClick d (Some h) b =
  match querySelector d h with
  | Throw e => (b, Throw e)
  | Normal None => (b, Normal ())
  | Normal (Some target) =>
      (pushState h
         (scrollTo {| top := num_sub (num_add (rect_top target) (pageYOffset d))
                                     HEADER_OFFSET;
                      behavior := "smooth" |} (preventDefault b)), Normal ())
  end.
Proof.
  intros H1 H2. unfold handleClick.
  rewrite truthy_Some by done. by rewrite bool_decide_eq_false_2.
Qed.

(** Whatever the lookup answers short of an element, the browser is left as
    it was. *)
Lemma handleClick_frame (d : document) (href : option string) (b : browser) :
  (∀ h t, href = Some h → querySelector d h ≠ Normal (Some t)) →
  (handleClick d href b).1 = b.
Proof.
  intros Hno. destruct href as [h |]; [| done].
  destruct (decide (h = "")) as [-> | H1]; [done |].
  destruct (decide (h = "#")) as [-> | H2]; [done |].
  rewrite handleClick_lookup by done.
  destruct (querySelector d h) as [[t |] | e] eqn:Hq; [| done ..].
  by destruct (Hno h t).
Qed.

(** C3. A click on a link whose fragment selects no element changes
    nothing: no scroll call, no history entry, the default action is not
    prevented.  A click on a link whose fragment selects an element prevents
    the default action, adds exactly one smooth [scrollTo] call whose [top]
    is (the target's top relative to the viewport + the current vertical
    scroll) minus 80, and makes the link's fragment the address fragment. *)
Theorem handleClick_scrolls (d : document) (h : string) (b : browser) :
  (querySelector d h = Normal None →
     handleClick d (Some h) b = (b, Normal ())) ∧
  (∀ t, h ≠ "" → h ≠ "#" → querySelector d h = Normal (Some t) →
     let b' := (handleClick d (Some h) b).1 in
     (handleClick d (Some h) b).2 = Normal ()
     ∧ defaultPrevented b' = true
     ∧ scrollTo_calls b'
       = (scrollTo_calls b
          ++ [{| top := num_sub (num_add (rect_top t) (pageYOffset d))
                                (num_lit 80);
                 behavior := "smooth" |}])%list
     ∧ pushState_urls b' = h :: pushState_urls b
     ∧ address_fragment b' = Some h).
Proof.
  split.
  - intros Hq. destruct (decide (h = "")) as [-> | H1]; [done |].
    destruct (decide (h = "#")) as [-> | H2]; [done |].
    by rewrite handleClick_lookup, Hq.
  - intros t H1 H2 Hq. cbn zeta. rewrite handleClick_lookup, Hq by done.
    by repeat split.
Qed.

End SmoothScrollClaims.

Section SmoothScrollExamples.
Import SmoothScroll Samples.

Lemma handleClick_scrolls_witness :
  handleClick anchor_document (Some "#nonexistent") browser_idle
    = (browser_idle, Normal ())
  ∧ scrollTo_calls (handleClick anchor_document (Some "#section2") browser_idle).1
    = [{| top := 540%Z; behavior := "smooth" |}]
  ∧ address_fragment
      (handleClick anchor_document (Some "#section2") browser_idle).1
    = Some "#section2".
Proof.
  split.
  - apply (proj1 (handleClick_scrolls anchor_document "#nonexistent"
                    browser_idle)). reflexivity.
  - destruct (proj2 (handleClick_scrolls anchor_document "#section2"
                       browser_idle) {| rect_top := 500%Z |})
      as (_ & _ & Hs & _ & Ha); [discriminate | discriminate | reflexivity |].
    split; [exact Hs | exact Ha].
Defined.

(** C4 does not hold of the code.  The link [<a href="#2024">] is bound by
    [init], and a click on it makes [handleClick] raise the [SyntaxError] of
    [document.querySelector]: the lookup is not guarded.  Nothing was
    changed before the exception. *)
Theorem handleClick_malformed_selector_throws :
  init [Some "#2024"] = [0]
  ∧ handleClick anchor_document (Some "#2024") browser_idle
    = (browser_idle, Throw SyntaxError).
Proof. split; reflexivity. Qed.

End SmoothScrollExamples.

(** ** Mobile Menu *)

Section MobileMenuClaims.
Import MobileMenu Samples.

Lemma classList_remove_absent c l :
  contains c l = false → classList_remove c l = l.
Proof.
  unfold contains, classList_remove. intros Hc.
  apply bool_decide_eq_false in Hc.
  induction l as [| x l IH]; [done |].
  rewrite filter_cons. destruct (decide (x ≠ c)) as [Hx | Hx].
  - f_equal. apply IH. intros Hin. apply Hc. by right.
  - exfalso. apply Hc. apply dec_stable in Hx. subst. by left.
Qed.

Lemma is_open_closeMenu st : is_open (closeMenu st) = false.
Proof.
  unfold is_open, closeMenu, contains, classList_remove. cbn.
  apply bool_decide_eq_false. intros Hin.
  apply list_elem_of_filter in Hin as [Hne _]. done.
Qed.

(** C9, as the specification states it, fails: on a freshly initialised
    page whose button has no [aria-expanded] attribute the menu is closed,
    and an outside click writes the attribute. *)
Lemma outside_click_writes_expanded :
  init menu_document = Some menu_closed_unlabelled
  ∧ is_open menu_closed_unlabelled = false
  ∧ aria_expanded menu_closed_unlabelled = None
  ∧ aria_expanded (onDocumentClick false false menu_closed_unlabelled)
    = Some "false"
  ∧ onDocumentClick false false menu_closed_unlabelled
    ≠ menu_closed_unlabelled.
Proof. repeat split. discriminate. Qed.

(** C9, amended. From the closed state a click outside both the panel and
    its button leaves the menu closed and its class list as it was; the
    handler still runs [closeMenu], which writes ["false"] to the button's
    [aria-expanded], so the attribute ends as ["false"], and the whole state
    is unchanged when the attribute already was ["false"]. *)
Theorem outside_click_while_closed (st : state) :
  is_open st = false →
  menu_classList (onDocumentClick false false st) = menu_classList st
  ∧ is_open (onDocumentClick false false st) = false
  ∧ aria_expanded (onDocumentClick false false st) = Some "false"
  ∧ (aria_expanded st = Some "false" → onDocumentClick false false st = st).
Proof.
  intros Hclosed. unfold onDocumentClick; cbn [negb andb].
  assert (Hcl : menu_classList (closeMenu st) = menu_classList st).
  { unfold closeMenu; cbn. by apply classList_remove_absent. }
  split; [exact Hcl |]. split; [apply is_open_closeMenu |].
  split; [done |].
  intros Ha. destruct st as [cl a]; cbn [aria_expanded] in Ha; subst a.
  unfold closeMenu; cbn [menu_classList]. f_equal.
  apply classList_remove_absent. exact Hclosed.
Qed.

Lemma outside_click_while_closed_witness :
  menu_classList (onDocumentClick false false menu_closed_unlabelled) = ["nav"]
  ∧ aria_expanded (onDocumentClick false false menu_closed_unlabelled)
    = Some "false".
Proof.
  destruct (outside_click_while_closed menu_closed_unlabelled)
    as (Hcl & _ & Ha & _); [reflexivity |].
  split; [exact Hcl | exact Ha].
Defined.

End MobileMenuClaims.

(** ** Scroll Reveal *)

Section ScrollRevealFacts.
Import ScrollReveal.

Lemma contains_classList_add c l : contains c (classList_add c l) = true.
Proof.
  unfold classList_add. destruct (contains c l) eqn:Hc; [done |].
  unfold contains. apply bool_decide_eq_true.
  apply elem_of_app. right. by left.
Qed.

Lemma contains_classList_add_mono c c' l :
  contains c l = true → contains c (classList_add c' l) = true.
Proof.
  unfold classList_add. destruct (contains c' l); [done |].
  unfold contains. rewrite !bool_decide_eq_true.
  intros Hin. apply elem_of_app. by left.
Qed.

Lemma elem_of_select_from d i el :
  el ∈ select_from i d ↔
  i ≤ el ∧ ∃ cl, d !! (el - i) = Some cl ∧ candidate cl = true.
Proof.
  revert i. induction d as [| cl d IH]; intros i; cbn [select_from].
  - split; [by intros ?%elem_of_nil | by intros (_ & ? & ? & _)].
  - assert (Hrest : el ∈ select_from (S i) d ↔
              i < el ∧ ∃ cl', (cl :: d) !! (el - i) = Some cl'
                              ∧ candidate cl' = true).
    { rewrite IH. split.
      - intros (Hle & cl' & Hl & Hc). split; [lia |]. exists cl'.
        replace (el - i) with (S (el - S i)) by lia. done.
      - intros (Hlt & cl' & Hl & Hc). split; [lia |]. exists cl'.
        replace (el - i) with (S (el - S i)) in Hl by lia. done. }
    destruct (candidate cl) eqn:Hc.
    + rewrite elem_of_cons, Hrest. split.
      * intros [-> | (Hlt & Hex)]; [| split; [lia | done]].
        split; [done |]. exists cl. by rewrite Nat.sub_diag.
      * intros (Hle & cl' & Hl & Hc').
        destruct (decide (el = i)) as [-> | Hne]; [by left | right].
        split; [lia |]. by exists cl'.
    + rewrite Hrest. split.
      * intros (Hlt & Hex). split; [lia | done].
      * intros (Hle & cl' & Hl & Hc').
        destruct (decide (el = i)) as [-> | Hne].
        -- rewrite Nat.sub_diag in Hl. cbn in Hl. congruence.
        -- split; [lia |]. by exists cl'.
Qed.

Lemma elem_of_querySelectorAll d el :
  el ∈ querySelectorAll d ↔ ∃ cl, d !! el = Some cl ∧ candidate cl = true.
Proof.
  unfold querySelectorAll. rewrite elem_of_select_from, Nat.sub_0_r.
  split; [by intros (_ & ?) | intros ?; split; [lia | done]].
Qed.

Lemma lookup_mark_revealed el d j :
  mark_revealed el d !! j =
  if decide (el = j) then classList_add "revealed" <$> d !! j else d !! j.
Proof.
  unfold mark_revealed. rewrite list_lookup_alter.
  case_decide; by subst.
Qed.

(** Marking an element never takes the mark away from another. *)
Lemma mark_revealed_mono el d j cl :
  d !! j = Some cl → contains "revealed" cl = true →
  ∃ cl', mark_revealed el d !! j = Some cl' ∧ contains "revealed" cl' = true.
Proof.
  intros Hl Hc. rewrite lookup_mark_revealed. case_decide.
  - rewrite Hl. eexists; split; [done |]. by apply contains_classList_add_mono.
  - by exists cl.
Qed.

Lemma mark_revealed_marks el d :
  el < length d →
  ∃ cl', mark_revealed el d !! el = Some cl' ∧ contains "revealed" cl' = true.
Proof.
  intros [cl Hl]%lookup_lt_is_Some. rewrite lookup_mark_revealed.
  rewrite decide_True by done. rewrite Hl. eexists; split; [done |].
  apply contains_classList_add.
Qed.

Lemma lookup_mark_revealed_other el d j :
  el ≠ j → mark_revealed el d !! j = d !! j.
Proof. intros Hne. rewrite lookup_mark_revealed. by rewrite decide_False. Qed.

(** The loop of the reduced-motion branch. *)
Lemma foldl_mark_revealed_mono els d j cl :
  d !! j = Some cl → contains "revealed" cl = true →
  ∃ cl', foldl (λ d el, mark_revealed el d) d els !! j = Some cl'
         ∧ contains "revealed" cl' = true.
Proof.
  revert d cl. induction els as [| el els IH]; intros d cl Hl Hc; cbn.
  - by exists cl.
  - destruct (mark_revealed_mono el d j cl Hl Hc) as (cl1 & Hl1 & Hc1).
    by apply (IH _ cl1).
Qed.

Lemma foldl_mark_revealed_length els d :
  length (foldl (λ d el, mark_revealed el d) d els) = length d.
Proof.
  revert d. induction els as [| el els IH]; intros d; cbn; [done |].
  rewrite IH. apply length_alter.
Qed.

Lemma foldl_mark_revealed_marks els d j :
  j ∈ els → j < length d →
  ∃ cl', foldl (λ d el, mark_revealed el d) d els !! j = Some cl'
         ∧ contains "revealed" cl' = true.
Proof.
  revert d. induction els as [| el els IH]; intros d Hin Hlt; cbn.
  - by apply elem_of_nil in Hin.
  - apply elem_of_cons in Hin as [-> | Hin].
    + destruct (mark_revealed_marks el d Hlt) as (cl1 & Hl1 & Hc1).
      by apply (foldl_mark_revealed_mono els _ el cl1).
    + apply IH; [done |]. unfold mark_revealed. by rewrite length_alter.
Qed.

Lemma foldl_mark_revealed_other els d j :
  j ∉ els → foldl (λ d el, mark_revealed el d) d els !! j = d !! j.
Proof.
  revert d. induction els as [| el els IH]; intros d Hnin; cbn; [done |].
  apply not_elem_of_cons in Hnin as [Hne Hnin].
  rewrite IH by done. by apply lookup_mark_revealed_other.
Qed.

End ScrollRevealFacts.

Section ScrollRevealInit.
Import ScrollReveal Samples.

(** C6. With the reduced-motion preference active, [init] returns normally
    having marked every candidate element revealed (and touched no other
    element); it creates no observer and makes no call to one, so no
    element is observed. *)
Theorem init_reduced_motion (w : window) (mm : string → bool) (st : state) :
  matchMedia w = Some mm →
  mm "(prefers-reduced-motion: reduce)" = true →
  (init w st).2 = Normal ()
  ∧ (∀ el, el ∈ querySelectorAll (dom st) → revealed el (init w st).1 = true)
  ∧ (∀ el, el ∉ querySelectorAll (dom st) →
           dom (init w st).1 !! el = dom st !! el)
  ∧ observer (init w st).1 = observer st
  ∧ calls (init w st).1 = calls st.
Proof.
  intros Hmm Hreduce. unfold init. rewrite Hmm, Hreduce. cbn [fst snd].
  split; [done |]. split; [| split; [| done]].
  - intros el Hel. unfold revealed; cbn [dom].
    assert (Hlt : el < length (dom st)).
    { apply elem_of_querySelectorAll in Hel as (cl & Hl & _).
      by apply lookup_lt_Some in Hl. }
    destruct (foldl_mark_revealed_marks _ (dom st) el Hel Hlt)
      as (cl' & -> & Hc). exact Hc.
  - intros el Hel. cbn [dom]. by apply foldl_mark_revealed_other.
Qed.

Lemma init_reduced_motion_witness :
  (init window_reduced_motion reveal_page).2 = Normal ()
  ∧ revealed 0 (init window_reduced_motion reveal_page).1 = true
  ∧ revealed 2 (init window_reduced_motion reveal_page).1 = true
  ∧ observer (init window_reduced_motion reveal_page).1 = None
  ∧ calls (init window_reduced_motion reveal_page).1 = [].
Proof.
  destruct (init_reduced_motion window_reduced_motion
              (λ q, bool_decide (q = "(prefers-reduced-motion: reduce)"))
              reveal_page eq_refl eq_refl) as (Hn & Hall & _ & Ho & Hc).
  split; [exact Hn |].
  split; [apply Hall; apply list_elem_of_In; vm_compute; tauto |].
  split; [apply Hall; apply list_elem_of_In; vm_compute; tauto |].
  split; [exact Ho | exact Hc].
Defined.

End ScrollRevealInit.

Section ScrollRevealBatches.
Import ScrollReveal Samples.

Lemma revealed_spec el st :
  revealed el st = true ↔
  ∃ cl, dom st !! el = Some cl ∧ contains "revealed" cl = true.
Proof.
  unfold revealed. destruct (dom st !! el) as [cl |].
  - split; [intros Hc; by exists cl | by intros (? & [= <-] & ?)].
  - split; [done | by intros (? & ? & _)].
Qed.

Lemma reveal_entry_dom e st :
  dom (reveal_entry e st).1 =
  if isIntersecting e then mark_revealed (target e) (dom st) else dom st.
Proof.
  unfold reveal_entry. by destruct (isIntersecting e), (observer st).
Qed.

Lemma reveal_entry_mono e st el :
  revealed el st = true → revealed el (reveal_entry e st).1 = true.
Proof.
  rewrite !revealed_spec, reveal_entry_dom. intros (cl & Hl & Hc).
  destruct (isIntersecting e); [| by exists cl].
  by apply (mark_revealed_mono _ _ _ cl).
Qed.

Lemma reveal_entry_observing e st obs :
  observer st = Some obs →
  (reveal_entry e st).2 = Normal ()
  ∧ observer (reveal_entry e st).1
    = Some (if isIntersecting e then obs ∖ {[target e]} else obs).
Proof.
  intros Ho. unfold reveal_entry. rewrite Ho.
  by destruct (isIntersecting e).
Qed.

Lemma handleIntersection_cons e entries st :
  handleIntersection (e :: entries) st =
  match (reveal_entry e st).2 with
  | Normal _ => handleIntersection entries (reveal_entry e st).1
  | Throw ex => ((reveal_entry e st).1, Throw ex)
  end.
Proof.
  unfold handleIntersection; cbn [forEach].
  by destruct (reveal_entry e st) as [st1 [[] | ex]].
Qed.

Lemma handleIntersection_mono entries st el :
  revealed el st = true → revealed el (handleIntersection entries st).1 = true.
Proof.
  revert st. induction entries as [| e entries IH]; intros st Hr; [done |].
  rewrite handleIntersection_cons.
  pose proof (reveal_entry_mono e st el Hr) as Hr1.
  destruct (reveal_entry e st).2; [by apply IH | done].
Qed.

(** With an observer in place a batch is processed to its end, the watched
    set only shrinks, and it loses the target of every intersecting entry. *)
Lemma handleIntersection_observing entries st obs :
  observer st = Some obs →
  ∃ obs', (handleIntersection entries st).2 = Normal ()
          ∧ observer (handleIntersection entries st).1 = Some obs'
          ∧ obs' ⊆ obs
          ∧ (∀ e, e ∈ entries → isIntersecting e = true → target e ∉ obs')
          ∧ length (dom (handleIntersection entries st).1) = length (dom st).
Proof.
  revert st obs. induction entries as [| e entries IH]; intros st obs Ho.
  - exists obs. repeat split; [done .. |]. by intros e ?%elem_of_nil.
  - rewrite handleIntersection_cons.
    destruct (reveal_entry_observing e st obs Ho) as [-> Ho1].
    destruct (IH _ _ Ho1) as (obs' & Hn & Ho' & Hsub & Hgone & Hlen).
    exists obs'. split; [done |]. split; [done |].
    split; [| split].
    + destruct (isIntersecting e); [| done].
      intros el Hel%Hsub. by apply elem_of_difference in Hel as [? _].
    + intros e' [-> | Hin]%elem_of_cons Hi; [| by apply Hgone].
      rewrite Hi in Hsub. intros Hel%Hsub.
      apply elem_of_difference in Hel as [_ Hel]. apply Hel.
      by apply elem_of_singleton.
    + rewrite Hlen, reveal_entry_dom. unfold mark_revealed.
      destruct (isIntersecting e); [apply length_alter | done].
Qed.

Lemma handleIntersection_marks entries st obs e :
  observer st = Some obs → e ∈ entries → isIntersecting e = true →
  target e < length (dom st) →
  revealed (target e) (handleIntersection entries st).1 = true.
Proof.
  revert st obs. induction entries as [| e0 entries IH]; intros st obs Ho Hin Hi Hlt.
  - by apply elem_of_nil in Hin.
  - rewrite handleIntersection_cons.
    destruct (reveal_entry_observing e0 st obs Ho) as [-> Ho1].
    apply elem_of_cons in Hin as [<- | Hin].
    + apply handleIntersection_mono. apply revealed_spec.
      rewrite reveal_entry_dom, Hi. by apply mark_revealed_marks.
    + apply (IH _ _ Ho1 Hin Hi). rewrite reveal_entry_dom. unfold mark_revealed.
      destruct (isIntersecting e0); [by rewrite length_alter | done].
Qed.

(** An element the observer no longer watches is in no later batch. *)
Lemma callbacks_never_again rest st st' obs el :
  observer st = Some obs → el ∉ obs → callbacks rest st = Some st' →
  ∀ b e, b ∈ rest → e ∈ b → target e ≠ el.
Proof.
  revert st obs. induction rest as [| b0 rest IH]; intros st obs Ho Hel Hrun b e Hb He.
  - by apply elem_of_nil in Hb.
  - cbn [callbacks] in Hrun.
    destruct (deliverable b0 st) eqn:Hd; [| done].
    destruct (handleIntersection_observing b0 st obs Ho)
      as (obs1 & Hn & Ho1 & Hsub & _).
    destruct (handleIntersection b0 st) as [st1 c] eqn:Hh. cbn [fst snd] in *.
    subst c. apply elem_of_cons in Hb as [-> | Hb].
    + unfold deliverable in Hd. rewrite Ho in Hd.
      apply Is_true_true, forallb_True, Forall_forall with (x := e) in Hd;
        [| done].
      apply bool_decide_unpack in Hd. intros Heq. apply Hel. by rewrite <- Heq.
    + apply (IH st1 obs1 Ho1) with (b := b); [| done ..].
      intros Hin. apply Hel. by apply Hsub.
Qed.

Lemma transitions_revealed el batches st :
  revealed el st = true → transitions el batches st = 0.
Proof.
  revert st. induction batches as [| b batches IH]; intros st Hr; [done |].
  cbn [transitions]. rewrite Hr. cbn [negb andb].
  apply IH. by apply handleIntersection_mono.
Qed.

Lemma transitions_at_most_one el batches st : transitions el batches st ≤ 1.
Proof.
  revert st. induction batches as [| b batches IH]; intros st; cbn [transitions].
  - lia.
  - destruct (revealed el st) eqn:Hr; cbn [negb andb].
    + rewrite transitions_revealed by by apply handleIntersection_mono. lia.
    + destruct (revealed el (handleIntersection b st).1) eqn:Hr'.
      * by rewrite transitions_revealed.
      * apply IH.
Qed.

(** A batch the observer can deliver is processed without an exception. *)
Lemma callbacks_deliverable b st :
  deliverable b st = true → (handleIntersection b st).2 = Normal ().
Proof.
  unfold deliverable. destruct (observer st) as [obs |] eqn:Ho; [| done].
  intros _. by destruct (handleIntersection_observing b st obs Ho) as (? & ? & _).
Qed.

(** C7. The reveal is one-shot per element.  In a batch handled while the
    observer exists, every intersecting entry has its element marked
    revealed and taken out of the watched set, and the batch is processed
    to its end.  A revealed element stays revealed through every batch.
    Once an entry for an element was intersecting, no batch the observer
    delivers later contains that element; and over any sequence of batches
    an element goes from pending to revealed at most once. *)
Theorem reveal_is_one_shot :
  (∀ entries st obs, observer st = Some obs →
     (handleIntersection entries st).2 = Normal ()
     ∧ ∀ e, e ∈ entries → isIntersecting e = true →
         target e < length (dom st) →
         revealed (target e) (handleIntersection entries st).1 = true
         ∧ ∃ obs', observer (handleIntersection entries st).1 = Some obs'
                   ∧ target e ∉ obs') ∧
  (∀ entries st el, revealed el st = true →
     revealed el (handleIntersection entries st).1 = true) ∧
  (∀ b rest st st' e, callbacks (b :: rest) st = Some st' →
     e ∈ b → isIntersecting e = true →
     ∀ b' e', b' ∈ rest → e' ∈ b' → target e' ≠ target e) ∧
  (∀ el batches st, transitions el batches st ≤ 1).
Proof.
  split; [| split; [| split]].
  - intros entries st obs Ho.
    destruct (handleIntersection_observing entries st obs Ho)
      as (obs' & Hn & Ho' & _ & Hgone & _).
    split; [done |]. intros e Hin Hi Hlt. split.
    + by apply (handleIntersection_marks entries st obs).
    + exists obs'. split; [done | by apply Hgone].
  - intros entries st el. apply handleIntersection_mono.
  - intros b rest st st' e Hrun Hin Hi.
    cbn [callbacks] in Hrun. destruct (deliverable b st) eqn:Hd; [| done].
    unfold deliverable in Hd. destruct (observer st) as [obs |] eqn:Ho; [| done].
    destruct (handleIntersection_observing b st obs Ho)
      as (obs1 & Hn & Ho1 & _ & Hgone & _).
    destruct (handleIntersection b st) as [st1 c]. cbn [fst snd] in *. subst c.
    apply (callbacks_never_again rest st1 st' obs1); [done | by apply Hgone | done].
  - apply transitions_at_most_one.
Qed.

End ScrollRevealBatches.

Section ScrollRevealRuns.
Import ScrollReveal Samples.

Lemma foldl_observe els st obs :
  observer st = Some obs →
  observer (foldl (λ s el, observe el s) st els) = Some (list_to_set els ∪ obs)
  ∧ dom (foldl (λ s el, observe el s) st els) = dom st.
Proof.
  revert st obs. induction els as [| el els IH]; intros st obs Ho; cbn [foldl].
  - split; [| done]. rewrite Ho. f_equal. cbn [list_to_set foldr].
    by rewrite (left_id_L ∅ (∪)).
  - destruct (IH (observe el st) ({[el]} ∪ obs)) as [Ho' Hd].
    { unfold observe; cbn [observer]. by rewrite Ho. }
    split; [| done]. rewrite Ho'. f_equal. cbn [list_to_set foldr].
    by rewrite (assoc_L (∪)), (comm_L (∪) (list_to_set els)).
Qed.

(** Without reduced motion [init] watches exactly the candidates, all of
    them elements of the page, and reveals nothing by itself. *)
Lemma init_observes (w : window) (mm : string → bool) (st : state) :
  matchMedia w = Some mm →
  mm "(prefers-reduced-motion: reduce)" = false →
  has_IntersectionObserver w = true →
  (init w st).2 = Normal ()
  ∧ dom (init w st).1 = dom st
  ∧ ∃ obs, observer (init w st).1 = Some obs
           ∧ (∀ el, el ∈ obs ↔ el ∈ querySelectorAll (dom st))
           ∧ (∀ el, el ∈ obs → el < length (dom st)).
Proof.
  intros Hmm Hreduce Hio. unfold init. rewrite Hmm, Hreduce, Hio. cbn [fst snd].
  split; [done |].
  match goal with |- context [foldl _ ?s ?l] =>
    destruct (foldl_observe l s ∅ eq_refl) as [Ho Hd] end.
  split; [exact Hd |]. eexists. split; [exact Ho |].
  assert (Hiff : ∀ el, el ∈ (list_to_set (querySelectorAll (dom st)) ∪ ∅ : gset nat)
                       ↔ el ∈ querySelectorAll (dom st)).
  { intros el. by rewrite (right_id_L ∅ (∪)), elem_of_list_to_set. }
  split; [exact Hiff |].
  intros el Hel%Hiff. apply elem_of_querySelectorAll in Hel as (cl & Hl & _).
  by apply lookup_lt_Some in Hl.
Qed.

Lemma reveal_is_one_shot_witness :
  let first := {| target := 0; isIntersecting := true |} in
  let again := {| target := 0; isIntersecting := true |} in
  revealed 0 reveal_page_observing = false
  ∧ revealed 0 (handleIntersection [first] reveal_page_observing).1 = true
  ∧ callbacks [[first]; [again]] reveal_page_observing = None
  ∧ transitions 0 [[first]; [again]] reveal_page_observing ≤ 1.
Proof.
  cbn zeta. destruct reveal_is_one_shot as (Hbatch & _ & _ & Honce).
  split; [reflexivity |].
  split.
  - destruct (Hbatch [{| target := 0; isIntersecting := true |}]
                reveal_page_observing _ eq_refl) as [_ Hmark].
    destruct (Hmark {| target := 0; isIntersecting := true |}) as [Hr _];
      [by left | reflexivity | vm_compute; lia | exact Hr].
  - split; [vm_compute; reflexivity | apply Honce].
Defined.

End ScrollRevealRuns.

(** * Further properties of the script *)

(** ** Theme Toggle: storage, label and sequences of events *)

Section ThemeToggleRuns.
Import ThemeToggle Samples.

Lemma toggle_setTheme theme save p :
  toggle (setTheme theme save p) =
  match toggle p with
  | Some _ => Some (Some (if bool_decide (theme = "dark")
                          then "Switch to light mode"
                          else "Switch to dark mode"))
  | None => None
  end.
Proof.
  unfold setTheme, setItem; cbn.
  destruct save, (writable (localStorage p)), (toggle p); reflexivity.
Qed.

Lemma writable_setTheme theme save p :
  writable (localStorage (setTheme theme save p)) = writable (localStorage p).
Proof.
  unfold setTheme, setItem; cbn.
  destruct save, (writable (localStorage p)) eqn:Hw, (toggle p); cbn; done.
Qed.

Lemma items_setTheme_other theme save p k :
  k ≠ STORAGE_KEY →
  items (localStorage (setTheme theme save p)) !! k
  = items (localStorage p) !! k.
Proof.
  intros Hk. unfold setTheme, setItem; cbn.
  destruct save, (writable (localStorage p)), (toggle p); cbn;
    try reflexivity; by rewrite lookup_insert_ne.
Qed.

Lemma no_saved_theme_storage p q :
  localStorage p = localStorage q → no_saved_theme p → no_saved_theme q.
Proof. unfold no_saved_theme, persisted. by intros ->. Qed.

Lemma dispatch_cases ls ev p :
  dispatch ls ev p = p
  ∨ ∃ theme save, (theme = "light" ∨ theme = "dark")
                  ∧ dispatch ls ev p = setTheme theme save p.
Proof.
  destruct ev as [| m]; cbn.
  - destruct (toggle_click ls); [| by left]. right. unfold toggleTheme.
    case_bool_decide; eexists _, true; split; [by left | done | by right | done].
  - destruct (system_change ls); [| by left]. unfold onSystemChange.
    destruct (truthy (getSavedTheme p)); [by left |]. right. cbn.
    destruct m; eexists _, false; split; [by right | done | by left | done].
Qed.

(** An invariant of the page that [setTheme] keeps is kept by every run of
    events. *)
Lemma run_invariant (I : page → Prop) ls evs p :
  (∀ theme save q, theme = "light" ∨ theme = "dark" →
                   I q → I (setTheme theme save q)) →
  I p → I (run ls evs p).
Proof.
  intros Hstep. unfold run. revert p.
  induction evs as [| ev evs IH]; intros p Hp; [done |].
  cbn. apply IH.
  destruct (dispatch_cases ls ev p) as [-> | (theme & save & Ht & ->)];
    [done | by apply Hstep].
Qed.

(** X1. Nothing the module does touches a key of [localStorage] other than
    its own, nor whether the storage can be read or written: this holds
    through [init] and through every sequence of toggle clicks and system
    changes. *)
Theorem storage_frame (w : window) (p : page) (evs : list event) (k : string) :
  k ≠ STORAGE_KEY →
  items (localStorage (run (init w p).2 evs (init w p).1)) !! k
  = items (localStorage p) !! k
  ∧ readable (localStorage (run (init w p).2 evs (init w p).1))
    = readable (localStorage p)
  ∧ writable (localStorage (run (init w p).2 evs (init w p).1))
    = writable (localStorage p).
Proof.
  intros Hk.
  apply (run_invariant
           (λ q, items (localStorage q) !! k = items (localStorage p) !! k
                 ∧ readable (localStorage q) = readable (localStorage p)
                 ∧ writable (localStorage q) = writable (localStorage p))).
  - intros theme save q _ (Hi & Hr & Hw).
    by rewrite items_setTheme_other, readable_setTheme, writable_setTheme.
  - unfold init; cbn [fst].
    by rewrite items_setTheme_other, readable_setTheme, writable_setTheme.
Qed.

Lemma storage_frame_witness :
  items (localStorage
           (run (init window_dark (fresh_page storage_empty)).2
                [ToggleClick; SystemChange false; ToggleClick]
                (init window_dark (fresh_page storage_empty)).1))
    !! "cart" = None.
Proof.
  destruct (storage_frame window_dark (fresh_page storage_empty)
              [ToggleClick; SystemChange false; ToggleClick] "cart")
    as [Hi _]; [discriminate |].
  rewrite Hi. apply lookup_empty.
Defined.

Lemma init_storage w p : localStorage (init w p).1 = localStorage p.
Proof. unfold init; cbn [fst]. apply localStorage_setTheme_unsaved. Qed.

Lemma run_system_changes_storage ls ms q :
  localStorage (run ls (SystemChange <$> ms) q) = localStorage q.
Proof.
  unfold run. revert q. induction ms as [| m ms IH]; intros q; [done |].
  cbn. rewrite IH. destruct (system_change ls); [| done].
  unfold onSystemChange. destruct (truthy (getSavedTheme q)); [done |].
  apply localStorage_setTheme_unsaved.
Qed.

(** X2. Only a toggle click writes: [init] and every sequence of system
    change events leave [localStorage] exactly as it was, whatever theme
    they apply. *)
Theorem only_toggle_writes (w : window) (p : page) (ms : list bool) :
  localStorage (init w p).1 = localStorage p
  ∧ localStorage (run (init w p).2 (SystemChange <$> ms) (init w p).1)
    = localStorage p.
Proof.
  split; [apply init_storage |].
  by rewrite run_system_changes_storage, init_storage.
Qed.

(** X3. On a page with a toggle button, after [init] and any sequence of
    events the button's [aria-label] names the theme a click would switch
    to: ["Switch to light mode"] exactly when the applied theme is
    ['dark'].  On a page without the button none is made up. *)
Theorem label_follows_theme (w : window) (p : page) (evs : list event) :
  let q := run (init w p).2 evs (init w p).1 in
  (∀ a, toggle p = Some a →
     toggle q = Some (Some (if bool_decide (data_theme q = Some "dark")
                            then "Switch to light mode"
                            else "Switch to dark mode")))
  ∧ (toggle p = None → toggle q = None).
Proof.
  cbn zeta. split.
  - intros a Ha.
    pose (I := λ q : page,
            toggle q = Some (Some (if bool_decide (data_theme q = Some "dark")
                                   then "Switch to light mode"
                                   else "Switch to dark mode"))).
    apply (run_invariant I); unfold I.
    + intros theme save q _ Hq.
      rewrite toggle_setTheme, Hq, data_theme_setTheme.
      do 2 f_equal. repeat case_bool_decide; congruence.
    + unfold init; cbn [fst].
      rewrite toggle_setTheme, Ha, data_theme_setTheme.
      do 2 f_equal. repeat case_bool_decide; congruence.
  - intros Hn. apply (run_invariant (λ q, toggle q = None)).
    + intros theme save q _ Hq. by rewrite toggle_setTheme, Hq.
    + unfold init; cbn [fst]. by rewrite toggle_setTheme, Hn.
Qed.

Lemma label_follows_theme_witness :
  toggle (run (init window_dark (fresh_page storage_empty)).2 [ToggleClick]
              (init window_dark (fresh_page storage_empty)).1)
  = Some (Some "Switch to dark mode").
Proof.
  rewrite (proj1 (label_follows_theme window_dark (fresh_page storage_empty)
                    [ToggleClick]) None eq_refl).
  reflexivity.
Defined.

Lemma init_system_change_registered w p :
  is_Some (matchMedia w) → mediaQueryList_addEventListener w = true →
  system_change (init w p).2 = true.
Proof.
  intros [mm Hmm] Ha. unfold init, watchSystemTheme; cbn. by rewrite Hmm, Ha.
Qed.

(** X4. While nothing usable is stored, in an environment whose
    [matchMedia] answers a MediaQueryList that has [addEventListener] (so
    that [init] returns and the change listener is registered), the applied
    theme follows the system: after [init] and any sequence of system
    changes it is the theme of the latest change, and storage still holds
    nothing usable. *)
Theorem theme_tracks_system (w : window) (p : page) (ms : list bool) (m : bool) :
  is_Some (matchMedia w) → mediaQueryList_addEventListener w = true →
  no_saved_theme p →
  let q := run (init w p).2 (SystemChange <$> (ms ++ [m])%list) (init w p).1 in
  init_completion w = Normal ()
  ∧ data_theme q = Some (if m then "dark" else "light") ∧ no_saved_theme q.
Proof.
  intros Hmm Ha Hno. cbn zeta.
  pose proof (init_system_change_registered w p Hmm Ha) as Hls.
  split.
  { destruct Hmm as [mm Hmm]. unfold init_completion, watchSystemTheme.
    by rewrite Hmm, Ha. }
  rewrite fmap_app. unfold run. rewrite foldl_app. cbn [fmap list_fmap foldl].
  fold (run (init w p).2 (SystemChange <$> ms) (init w p).1).
  assert (Hst : localStorage (run (init w p).2 (SystemChange <$> ms) (init w p).1)
                = localStorage p)
    by by rewrite run_system_changes_storage, init_storage.
  set (q := run (init w p).2 (SystemChange <$> ms) (init w p).1) in *.
  assert (Hq : no_saved_theme q) by by apply (no_saved_theme_storage p).
  cbn [dispatch]. rewrite Hls.
  rewrite onSystemChange_unsaved by by apply no_saved_theme_falsy.
  split; [apply data_theme_setTheme |].
  apply (no_saved_theme_storage q); [| done].
  by rewrite localStorage_setTheme_unsaved.
Qed.

Lemma theme_tracks_system_witness :
  data_theme (run (init window_dark (fresh_page storage_denied)).2
                  (SystemChange <$> [true; false])
                  (init window_dark (fresh_page storage_denied)).1)
  = Some "light".
Proof.
  destruct (theme_tracks_system window_dark (fresh_page storage_denied)
              [true] false) as (_ & H & _);
    [by eexists | reflexivity | left; reflexivity | exact H].
Defined.

(** X5. A choice made with the toggle survives a reload: when storage can
    be read and written, [init] on any later page that finds the storage
    the toggle left applies the toggled theme, whatever the system prefers
    then. *)
Theorem toggle_survives_reload (p : page) (w' : window) (p' : page) :
  readable (localStorage p) = true → writable (localStorage p) = true →
  localStorage p' = localStorage (toggleTheme p) →
  data_theme (init w' p').1 = data_theme (toggleTheme p).
Proof.
  intros Hr Hw Hst.
  destruct (toggleTheme_applied_nonempty p) as (s & Hs & Hne). rewrite Hs.
  apply init_applies_saved; [| | done].
  - rewrite Hst. unfold toggleTheme. by rewrite readable_setTheme.
  - unfold persisted. rewrite Hst. fold (persisted (toggleTheme p)).
    rewrite <- Hs. unfold toggleTheme.
    by rewrite persisted_setTheme_saved, data_theme_setTheme.
Qed.

Lemma toggle_survives_reload_witness :
  let p := (init window_light (fresh_page storage_empty)).1 in
  data_theme
    (init window_light (fresh_page (localStorage (toggleTheme p)))).1
  = Some "dark".
Proof.
  cbn zeta.
  rewrite (toggle_survives_reload
             (init window_light (fresh_page storage_empty)).1 window_light
             (fresh_page (localStorage
                (toggleTheme (init window_light (fresh_page storage_empty)).1))));
    reflexivity.
Defined.

(** X6. When storage yields nothing usable or one of the two themes, the
    applied theme is ['light'] or ['dark'] after [init] and stays one of the
    two through every sequence of events. *)
Theorem applied_theme_stays_valid (w : window) (p : page) (evs : list event) :
  no_saved_theme p
  ∨ (readable (localStorage p) = true
     ∧ (persisted p = Some "light" ∨ persisted p = Some "dark")) →
  data_theme (run (init w p).2 evs (init w p).1) = Some "light"
  ∨ data_theme (run (init w p).2 evs (init w p).1) = Some "dark".
Proof.
  intros Hp.
  apply (run_invariant
           (λ q, data_theme q = Some "light" ∨ data_theme q = Some "dark")).
  - intros theme save q [-> | ->] _; rewrite data_theme_setTheme; auto.
  - destruct Hp as [Hno | [Hr [Hs | Hs]]].
    + rewrite init_applies_system, getSystemTheme_prefers_dark by done.
      destruct (prefers_dark w); auto.
    + left. by apply init_applies_saved.
    + right. by apply init_applies_saved.
Qed.

Lemma applied_theme_stays_valid_witness :
  let q := run (init window_dark (fresh_page (storage_holding "light"))).2
               [SystemChange true; ToggleClick]
               (init window_dark (fresh_page (storage_holding "light"))).1 in
  data_theme q = Some "light" ∨ data_theme q = Some "dark".
Proof.
  apply (applied_theme_stays_valid window_dark
           (fresh_page (storage_holding "light"))
           [SystemChange true; ToggleClick]).
  right. split; [reflexivity |]. left. apply lookup_singleton_eq.
Defined.

(** X7. When storage refuses writes the toggle still flips the applied
    theme but leaves no trace: storage is unchanged, so with nothing usable
    stored the next system change replaces the theme the user chose. *)
Theorem unsaved_toggle_is_overridden (p : page) (m : bool) :
  writable (localStorage p) = false → no_saved_theme p →
  data_theme (toggleTheme p)
  = Some (if bool_decide (data_theme p = Some "dark") then "light" else "dark")
  ∧ localStorage (toggleTheme p) = localStorage p
  ∧ data_theme (onSystemChange m (toggleTheme p))
    = Some (if m then "dark" else "light").
Proof.
  intros Hw Hno.
  assert (Hst : localStorage (toggleTheme p) = localStorage p).
  { unfold toggleTheme. by apply localStorage_setTheme_write_fails. }
  split; [apply toggleTheme_applied |]. split; [exact Hst |].
  rewrite onSystemChange_unsaved; [apply data_theme_setTheme |].
  apply no_saved_theme_falsy. by apply (no_saved_theme_storage p).
Qed.

Lemma unsaved_toggle_is_overridden_witness :
  let p := (init window_light (fresh_page storage_full)).1 in
  data_theme (toggleTheme p) = Some "dark"
  ∧ data_theme (onSystemChange false (toggleTheme p)) = Some "light".
Proof.
  cbn zeta.
  destruct (unsaved_toggle_is_overridden
              (init window_light (fresh_page storage_full)).1 false)
    as (Ht & _ & Hs); [reflexivity | right; left; apply lookup_empty |].
  split; [exact Ht | exact Hs].
Defined.

End ThemeToggleRuns.

(** ** Smooth Scroll: binding, exceptions and repeated clicks *)

Section SelectionFacts.
Import Selection.

Lemma elem_of_select_indices {A : Type} (f : A → bool) (l : list A) i j :
  j ∈ select_indices f i l ↔
  i ≤ j ∧ ∃ x, l !! (j - i) = Some x ∧ f x = true.
Proof.
  revert i. induction l as [| x l IH]; intros i; cbn [select_indices].
  - split; [by intros ?%elem_of_nil | by intros (_ & ? & ? & _)].
  - assert (Hrest : j ∈ select_indices f (S i) l ↔
              i < j ∧ ∃ y, (x :: l) !! (j - i) = Some y ∧ f y = true).
    { rewrite IH. split.
      - intros (Hle & y & Hl & Hf). split; [lia |]. exists y.
        replace (j - i) with (S (j - S i)) by lia. done.
      - intros (Hlt & y & Hl & Hf). split; [lia |]. exists y.
        replace (j - i) with (S (j - S i)) in Hl by lia. done. }
    destruct (f x) eqn:Hx.
    + rewrite elem_of_cons, Hrest. split.
      * intros [-> | (Hlt & Hex)]; [| split; [lia | done]].
        split; [done |]. exists x. by rewrite Nat.sub_diag.
      * intros (Hle & y & Hl & Hf).
        destruct (decide (j = i)) as [-> | Hne]; [by left | right].
        split; [lia |]. by exists y.
    + rewrite Hrest. split.
      * intros (Hlt & Hex). split; [lia | done].
      * intros (Hle & y & Hl & Hf).
        destruct (decide (j = i)) as [-> | Hne].
        -- rewrite Nat.sub_diag in Hl. cbn in Hl. congruence.
        -- split; [lia |]. by exists y.
Qed.

Lemma select_anchors_indices i anchors :
  SmoothScroll.select_anchors i anchors
  = select_indices is_fragment_link i anchors.
Proof.
  revert i. induction anchors as [| [h |] anchors IH]; intros i; cbn; [done | |].
  - rewrite IH. done.
  - apply IH.
Qed.

Lemma select_cards_indices i cards :
  CardEffects.select_cards i cards = select_indices (λ b : bool, b) i cards.
Proof.
  revert i. induction cards as [| b cards IH]; intros i; cbn; [done |].
  by rewrite IH.
Qed.

(** X8. [SmoothScroll.init] binds the click handler to exactly the anchors
    whose [href] attribute is present and starts with ["#"]; an anchor
    without [href], or with a link to another page, is left alone. *)
Theorem init_binds_fragment_links (anchors : list (option string)) (i : nat) :
  i ∈ SmoothScroll.init anchors ↔
  ∃ h, anchors !! i = Some (Some h) ∧ String.prefix "#" h = true.
Proof.
  unfold SmoothScroll.init.
  rewrite select_anchors_indices, elem_of_select_indices, Nat.sub_0_r.
  split.
  - intros (_ & [h |] & Hl & Hf); [by exists h | done].
  - intros (h & Hl & Hp). split; [lia |]. by exists (Some h).
Qed.

End SelectionFacts.

Section SmoothScrollRuns.
Import SmoothScroll.
Context {num : Type} `{!Number num}.

(** X9. [handleClick] raises exactly when it hands the [href] to
    [document.querySelector] and that call raises: an absent or empty
    [href] and the bare ["#"] never reach the lookup.  When it raises, it is
    with the lookup's exception and nothing has been changed. *)
Theorem handleClick_raises_iff (d : document) (href : option string)
    (b : browser) (e : exn) :
  ((handleClick d href b).2 = Throw e ↔
   ∃ h, href = Some h ∧ h ≠ "" ∧ h ≠ "#" ∧ querySelector d h = Throw e)
  ∧ ((handleClick d href b).2 = Throw e → (handleClick d href b).1 = b).
Proof.
  destruct href as [h |]; [| split; [split; [done | by intros (? & ? & _)] | done]].
  destruct (decide (h = "")) as [-> | H1];
    [split; [split; [done | by intros (? & [= <-] & ? & _)] | done] |].
  destruct (decide (h = "#")) as [-> | H2];
    [split; [split; [done | by intros (? & [= <-] & _ & ? & _)] | done] |].
  rewrite handleClick_lookup by done.
  destruct (querySelector d h) as [[t |] | e'] eqn:Hq; cbn [fst snd].
  - split; [split; [done | intros (? & [= <-] & _ & _ & ?); congruence] | done].
  - split; [split; [done | intros (? & [= <-] & _ & _ & ?); congruence] | done].
  - split; [| done]. split.
    + intros [= ->]. by exists h.
    + intros (? & [= <-] & _ & _ & ?). congruence.
Qed.

(** The browser after [k] clicks on the same link. *)
Lemma clicks_unfold (d : document) (h : string) (b : browser) (k : nat) :
  Nat.iter (S k) (λ b, (handleClick d (Some h) b).1) b
  = (handleClick d (Some h) (Nat.iter k (λ b, (handleClick d (Some h) b).1) b)).1.
Proof. reflexivity. Qed.

(** X10. Every click on a link whose target exists adds one scroll call
    and one history entry, also when the same link is clicked again: after
    [k] clicks there are [k] more smooth scroll calls, all to the same
    position, and [k] more history entries, all the link's fragment. *)
Theorem repeated_clicks_accumulate (d : document) (h : string) (t : Element)
    (b : browser) (k : nat) :
  h ≠ "" → h ≠ "#" → querySelector d h = Normal (Some t) →
  let b' := Nat.iter k (λ b, (handleClick d (Some h) b).1) b in
  scrollTo_calls b'
  = (scrollTo_calls b
     ++ replicate k {| top := num_sub (num_add (rect_top t) (pageYOffset d))
                                      HEADER_OFFSET;
                       behavior := "smooth" |})%list
  ∧ pushState_urls b' = (replicate k h ++ pushState_urls b)%list.
Proof.
  intros H1 H2 Hq. cbn zeta. induction k as [| k [IHs IHp]].
  - cbn. by rewrite app_nil_r.
  - rewrite clicks_unfold, handleClick_lookup, Hq by done.
    cbn [fst scrollTo pushState preventDefault scrollTo_calls pushState_urls].
    rewrite IHs, IHp. split; [| done].
    rewrite <- app_assoc. f_equal.
    change (S k) with (1 + k). rewrite Nat.add_comm.
    by rewrite replicate_add.
Qed.

End SmoothScrollRuns.

Section SmoothScrollRunsExamples.
Import SmoothScroll Samples.

Lemma handleClick_raises_iff_witness :
  (handleClick anchor_document (Some "#2024") browser_idle).2 = Throw SyntaxError.
Proof.
  apply (proj1 (handleClick_raises_iff anchor_document (Some "#2024")
                  browser_idle SyntaxError)).
  exists "#2024". repeat split; discriminate.
Defined.

Lemma repeated_clicks_accumulate_witness :
  pushState_urls
    (Nat.iter 2 (λ b, (handleClick anchor_document (Some "#section2") b).1)
              browser_idle)
  = ["#section2"; "#section2"].
Proof.
  destruct (repeated_clicks_accumulate anchor_document "#section2"
              {| rect_top := 500%Z |} browser_idle 2) as [_ Hp];
    [discriminate | discriminate | reflexivity |].
  exact Hp.
Defined.

Lemma init_binds_fragment_links_witness :
  0 ∈ init [Some "#section2"; Some "https://example.org/"; None].
Proof.
  apply (init_binds_fragment_links
           [Some "#section2"; Some "https://example.org/"; None] 0).
  by exists "#section2".
Defined.

End SmoothScrollRunsExamples.

(** ** Scroll Reveal: set-up, failures and what a batch may change *)

Section ScrollRevealMore.
Import ScrollReveal Samples.

Lemma foldl_observe_calls els st :
  calls (foldl (λ s el, observe el s) st els)
  = (calls st ++ (Observe <$> els))%list.
Proof.
  revert st. induction els as [| el els IH]; intros st; cbn [foldl].
  - cbn. by rewrite app_nil_r.
  - rewrite IH. unfold observe; cbn [calls]. by rewrite <- app_assoc.
Qed.

(** X11. Without reduced motion and with IntersectionObserver available,
    [init] creates one observer and registers every candidate element once,
    in document order; the observer then watches exactly the candidates,
    and no element is revealed or otherwise changed by [init] itself. *)
Theorem init_watches_candidates (w : window) (mm : string → bool) (st : state) :
  matchMedia w = Some mm →
  mm "(prefers-reduced-motion: reduce)" = false →
  has_IntersectionObserver w = true →
  (init w st).2 = Normal ()
  ∧ dom (init w st).1 = dom st
  ∧ observer (init w st).1 = Some (list_to_set (querySelectorAll (dom st)))
  ∧ calls (init w st).1
    = (calls st ++ NewObserver :: (Observe <$> querySelectorAll (dom st)))%list.
Proof.
  intros Hmm Hreduce Hio. unfold init. rewrite Hmm, Hreduce, Hio. cbn [fst snd].
  split; [done |].
  match goal with |- context [foldl _ ?s ?l] =>
    destruct (foldl_observe l s ∅ eq_refl) as [Ho Hd];
    pose proof (foldl_observe_calls l s) as Hc end.
  split; [exact Hd |]. split.
  - rewrite Ho. by rewrite (right_id_L ∅ (∪)).
  - rewrite Hc. cbn [calls]. by rewrite <- app_assoc.
Qed.

Lemma init_watches_candidates_witness :
  observer reveal_page_observing = Some {[0; 2]}
  ∧ calls reveal_page_observing = [NewObserver; Observe 0; Observe 2].
Proof.
  destruct (init_watches_candidates window_light (λ _, false) reveal_page
              eq_refl eq_refl eq_refl) as (_ & _ & Ho & Hc).
  split.
  - unfold reveal_page_observing. rewrite Ho. reflexivity.
  - exact Hc.
Defined.

(** X12. [ScrollReveal.init] returns normally exactly when the environment
    has [matchMedia] and either reduced motion is requested or
    IntersectionObserver exists.  In every other environment it raises, and
    then it has changed nothing: no element is revealed and none is
    watched. *)
Theorem init_completes_iff (w : window) (st : state) :
  ((init w st).2 = Normal () ↔
   ∃ mm, matchMedia w = Some mm
         ∧ (mm "(prefers-reduced-motion: reduce)" = true
            ∨ has_IntersectionObserver w = true))
  ∧ ((init w st).2 ≠ Normal () → (init w st).1 = st).
Proof.
  unfold init. destruct (matchMedia w) as [mm |]; cbn [fst snd].
  - destruct (mm "(prefers-reduced-motion: reduce)") eqn:Hr; cbn [fst snd].
    + split; [| done]. split; [| done]. intros _. exists mm. auto.
    + destruct (has_IntersectionObserver w) eqn:Hio; cbn [fst snd].
      * split; [| done]. split; [| done]. intros _. exists mm. auto.
      * split; [| done]. split; [done |].
        intros (mm' & [= <-] & [H | H]); congruence.
  - split; [| done]. split; [done | by intros (? & ? & _)].
Qed.

Lemma reveal_entry_only_target e st el :
  revealed el (reveal_entry e st).1 = true →
  revealed el st = true ∨ (target e = el ∧ isIntersecting e = true).
Proof.
  rewrite !revealed_spec, reveal_entry_dom.
  destruct (isIntersecting e); [| by left].
  destruct (decide (target e = el)) as [Heq | Hne]; [by right |].
  rewrite lookup_mark_revealed_other by done. by left.
Qed.

(** X13. An element becomes revealed in a batch only if the batch has an
    intersecting entry for it; a batch without intersecting entries leaves
    the whole state as it was. *)
Theorem reveal_needs_intersection (entries : list entry) (st : state) :
  (∀ el, revealed el st = false →
         revealed el (handleIntersection entries st).1 = true →
         ∃ e, e ∈ entries ∧ target e = el ∧ isIntersecting e = true)
  ∧ ((∀ e, e ∈ entries → isIntersecting e = false) →
     handleIntersection entries st = (st, Normal ())).
Proof.
  split.
  - intros el. revert st. induction entries as [| e entries IH]; intros st Hn Hr.
    + cbn in Hr. congruence.
    + rewrite handleIntersection_cons in Hr.
      destruct (revealed el (reveal_entry e st).1) eqn:Hr1.
      * apply reveal_entry_only_target in Hr1 as [Hr1 | [Ht Hi]]; [congruence |].
        exists e. split; [by left | done].
      * destruct (reveal_entry e st).2; [| cbn in Hr; congruence].
        destruct (IH _ Hr1 Hr) as (e' & Hin & Ht & Hi).
        exists e'. split; [by right | done].
  - revert st. induction entries as [| e entries IH]; intros st Hall; [done |].
    rewrite handleIntersection_cons. unfold reveal_entry.
    rewrite (Hall e) by by left. cbn [fst snd].
    apply IH. intros e' Hin. apply Hall. by right.
Qed.

Lemma reveal_needs_intersection_witness :
  handleIntersection [{| target := 0; isIntersecting := false |};
                      {| target := 2; isIntersecting := false |}]
                     reveal_page_observing
  = (reveal_page_observing, Normal ()).
Proof.
  apply (proj2 (reveal_needs_intersection _ reveal_page_observing)).
  intros e [-> | [-> | []%elem_of_nil]%elem_of_cons]%elem_of_cons; reflexivity.
Defined.

Lemma classList_add_idemp c l :
  classList_add c (classList_add c l) = classList_add c l.
Proof.
  unfold classList_add at 1. by rewrite contains_classList_add.
Qed.

(** One more [classList.add('revealed')] keeps a class list among the two
    it can be: the original one, or the original with ['revealed'] added. *)
Lemma mark_revealed_grows t (d d0 : list (list string)) :
  (∀ el, d !! el = d0 !! el
         ∨ d !! el = classList_add "revealed" <$> d0 !! el) →
  ∀ el, mark_revealed t d !! el = d0 !! el
        ∨ mark_revealed t d !! el = classList_add "revealed" <$> d0 !! el.
Proof.
  intros Hd el. rewrite lookup_mark_revealed. case_decide; [| apply Hd].
  right. destruct (Hd el) as [-> | ->]; [done |].
  destruct (d0 !! el); cbn; [| done]. by rewrite classList_add_idemp.
Qed.

Lemma foldl_mark_revealed_grows els (d d0 : list (list string)) :
  (∀ el, d !! el = d0 !! el
         ∨ d !! el = classList_add "revealed" <$> d0 !! el) →
  ∀ el, foldl (λ d t, mark_revealed t d) d els !! el = d0 !! el
        ∨ foldl (λ d t, mark_revealed t d) d els !! el
          = classList_add "revealed" <$> d0 !! el.
Proof.
  revert d. induction els as [| t els IH]; intros d Hd; [done |].
  cbn [foldl]. apply IH. by apply mark_revealed_grows.
Qed.

Lemma handleIntersection_grows entries st (d0 : list (list string)) :
  (∀ el, dom st !! el = d0 !! el
         ∨ dom st !! el = classList_add "revealed" <$> d0 !! el) →
  ∀ el, dom (handleIntersection entries st).1 !! el = d0 !! el
        ∨ dom (handleIntersection entries st).1 !! el
          = classList_add "revealed" <$> d0 !! el.
Proof.
  revert st. induction entries as [| e entries IH]; intros st Hd; [done |].
  rewrite handleIntersection_cons.
  assert (Hd1 : ∀ el, dom (reveal_entry e st).1 !! el = d0 !! el
                      ∨ dom (reveal_entry e st).1 !! el
                        = classList_add "revealed" <$> d0 !! el).
  { rewrite reveal_entry_dom. destruct (isIntersecting e); [| done].
    by apply mark_revealed_grows. }
  destruct (reveal_entry e st).2; [by apply IH | done].
Qed.

(** X14. The module only ever adds the class ['revealed']: through [init]
    and through any batch, every element keeps its class list or gets the
    same list with ['revealed'] added; no class is removed, no element
    appears or disappears. *)
Theorem only_revealed_is_added (w : window) (entries : list entry)
    (st : state) (el : nat) :
  (dom (init w st).1 !! el = dom st !! el
   ∨ dom (init w st).1 !! el = classList_add "revealed" <$> dom st !! el)
  ∧ (dom (handleIntersection entries st).1 !! el = dom st !! el
     ∨ dom (handleIntersection entries st).1 !! el
       = classList_add "revealed" <$> dom st !! el).
Proof.
  split; [| apply handleIntersection_grows; by left].
  unfold init. destruct (matchMedia w) as [mm |]; [| by left].
  destruct (mm "(prefers-reduced-motion: reduce)"); cbn [fst dom].
  - apply foldl_mark_revealed_grows. by left.
  - destruct (has_IntersectionObserver w); [| by left]. cbn [fst].
    match goal with |- context [foldl _ ?s ?l] =>
      destruct (foldl_observe l s ∅ eq_refl) as [_ ->] end.
    by left.
Qed.

End ScrollRevealMore.

Section ScrollRevealWatched.
Import ScrollReveal Samples.

Lemma init_completes_iff_witness :
  (init window_no_observer reveal_page).2 = Throw ReferenceError
  ∧ (init window_no_observer reveal_page).1 = reveal_page
  ∧ (init window_bare reveal_page).1 = reveal_page.
Proof.
  split; [reflexivity |]. split.
  - apply (proj2 (init_completes_iff window_no_observer reveal_page)).
    discriminate.
  - apply (proj2 (init_completes_iff window_bare reveal_page)). discriminate.
Defined.

(** Which elements a batch leaves in the watched set. *)
Lemma handleIntersection_watched entries st obs :
  observer st = Some obs →
  ∃ obs', observer (handleIntersection entries st).1 = Some obs'
          ∧ ∀ el, el ∈ obs' ↔
                  el ∈ obs ∧ ¬ ∃ e, e ∈ entries ∧ target e = el
                                    ∧ isIntersecting e = true.
Proof.
  revert st obs. induction entries as [| e entries IH]; intros st obs Ho.
  - exists obs. split; [done |]. intros el. split; [| by intros [? _]].
    intros Hel. split; [done |]. by intros (? & ?%elem_of_nil & _).
  - rewrite handleIntersection_cons.
    destruct (reveal_entry_observing e st obs Ho) as [-> Ho1].
    destruct (IH _ _ Ho1) as (obs' & Ho' & Hiff).
    exists obs'. split; [done |]. intros el. rewrite Hiff. split.
    + intros [Hel Hno]. destruct (isIntersecting e) eqn:Hi.
      * apply elem_of_difference in Hel as [Hel Hne]. split; [done |].
        intros (e' & [-> | Hin]%elem_of_cons & Ht & Hi').
        -- apply Hne. by apply elem_of_singleton.
        -- apply Hno. by exists e'.
      * split; [done |].
        intros (e' & [-> | Hin]%elem_of_cons & Ht & Hi'); [congruence |].
        apply Hno. by exists e'.
    + intros [Hel Hno]. split.
      * destruct (isIntersecting e) eqn:Hi; [| done].
        apply elem_of_difference. split; [done |].
        intros Heq%elem_of_singleton. apply Hno. exists e.
        split; [by left | done].
      * intros (e' & Hin & Ht & Hi'). apply Hno. exists e'.
        split; [by right | done].
Qed.

(** X15. A batch stops the watching of exactly the targets of its
    intersecting entries: afterwards the observer watches an element if and
    only if it watched it before and the batch had no intersecting entry
    for it.  Nothing is ever added to the watched set by a batch. *)
Theorem batch_unobserves_intersecting (entries : list entry) (st : state)
    (obs : gset nat) :
  observer st = Some obs →
  ∃ obs', observer (handleIntersection entries st).1 = Some obs'
          ∧ obs' ⊆ obs
          ∧ ∀ el, el ∈ obs' ↔
                  el ∈ obs ∧ ¬ ∃ e, e ∈ entries ∧ target e = el
                                    ∧ isIntersecting e = true.
Proof.
  intros Ho. destruct (handleIntersection_watched entries st obs Ho)
    as (obs' & Ho' & Hiff).
  exists obs'. split; [done |]. split; [| done].
  intros el Hel. by apply Hiff in Hel as [? _].
Qed.

Lemma batch_unobserves_intersecting_witness :
  observer (handleIntersection [{| target := 0; isIntersecting := true |};
                                {| target := 2; isIntersecting := false |}]
                               reveal_page_observing).1
  = Some {[2]}.
Proof.
  destruct (batch_unobserves_intersecting
              [{| target := 0; isIntersecting := true |};
               {| target := 2; isIntersecting := false |}]
              reveal_page_observing _ eq_refl) as (obs' & Ho & _ & _).
  rewrite Ho. vm_compute in Ho. by injection Ho as <-.
Defined.

(** Every candidate is an element of the page and is either revealed or
    still watched. *)
Lemma pending_watched_step (C : list nat) b st :
  (∃ obs, observer st = Some obs
          ∧ ∀ el, el ∈ C → el < length (dom st)
                           ∧ (revealed el st = true ∨ el ∈ obs)) →
  ∃ obs', observer (handleIntersection b st).1 = Some obs'
          ∧ ∀ el, el ∈ C →
              el < length (dom (handleIntersection b st).1)
              ∧ (revealed el (handleIntersection b st).1 = true ∨ el ∈ obs').
Proof.
  intros (obs & Ho & HC).
  destruct (handleIntersection_watched b st obs Ho) as (obs' & Ho' & Hiff).
  destruct (handleIntersection_observing b st obs Ho) as (? & _ & _ & _ & _ & Hlen).
  exists obs'. split; [done |]. intros el Hel.
  destruct (HC el Hel) as [Hlt Hor]. split; [by rewrite Hlen |].
  destruct Hor as [Hr | Hin]; [left; by apply handleIntersection_mono |].
  destruct (decide (el ∈ obs')) as [Hin' | Hout]; [by right | left].
  assert (Hex : ∃ e, e ∈ b ∧ target e = el ∧ isIntersecting e = true).
  { destruct (decide (Exists (λ e, target e = el ∧ isIntersecting e = true) b))
      as [Hx | Hx].
    - apply Exists_exists in Hx as (e & ? & ? & ?). by exists e.
    - exfalso. apply Hout, Hiff. split; [done |].
      intros (e & ? & ? & ?). apply Hx, Exists_exists. by exists e. }
  destruct Hex as (e & Hin_e & <- & Hi).
  by apply (handleIntersection_marks b st obs).
Qed.

(** X16. No candidate is lost.  After [init] without reduced motion and
    any sequence of batches the observer delivers, each candidate element
    is either revealed already or still watched by the observer, so a later
    intersection can still reveal it. *)
Theorem pending_candidates_stay_watched (w : window) (mm : string → bool)
    (st st' : state) (batches : list (list entry)) :
  matchMedia w = Some mm →
  mm "(prefers-reduced-motion: reduce)" = false →
  has_IntersectionObserver w = true →
  callbacks batches (init w st).1 = Some st' →
  ∃ obs', observer st' = Some obs'
          ∧ ∀ el, el ∈ querySelectorAll (dom st) →
                  revealed el st' = true ∨ el ∈ obs'.
Proof.
  intros Hmm Hreduce Hio Hrun.
  destruct (init_observes w mm st Hmm Hreduce Hio)
    as (_ & Hdom & obs & Ho & Hiff & Hlt).
  assert (Hinv : ∃ obs0, observer (init w st).1 = Some obs0
            ∧ ∀ el, el ∈ querySelectorAll (dom st) →
                el < length (dom (init w st).1)
                ∧ (revealed el (init w st).1 = true ∨ el ∈ obs0)).
  { exists obs. split; [done |]. intros el Hel%Hiff.
    split; [rewrite Hdom; by apply Hlt | by right]. }
  clear Ho Hiff Hlt Hdom obs.
  revert Hrun Hinv. generalize (init w st).1 as s.
  induction batches as [| b batches IH]; intros s Hrun Hinv.
  - injection Hrun as <-. destruct Hinv as (obs0 & Ho & HC).
    exists obs0. split; [done |]. intros el Hel. by apply HC.
  - cbn [callbacks] in Hrun. destruct (deliverable b s); [| done].
    pose proof (pending_watched_step _ b s Hinv) as Hinv1.
    destruct (handleIntersection b s) as [s1 [[] | ex]]; [| done].
    by apply (IH s1).
Qed.

Lemma pending_candidates_stay_watched_witness :
  ∃ obs', observer (handleIntersection [{| target := 0; isIntersecting := true |}]
                                       reveal_page_observing).1 = Some obs'
          ∧ (revealed 2 (handleIntersection
                           [{| target := 0; isIntersecting := true |}]
                           reveal_page_observing).1 = true
             ∨ 2 ∈ obs').
Proof.
  destruct (pending_candidates_stay_watched window_light (λ _, false)
              reveal_page
              (handleIntersection [{| target := 0; isIntersecting := true |}]
                                  reveal_page_observing).1
              [[{| target := 0; isIntersecting := true |}]]
              eq_refl eq_refl eq_refl) as (obs' & Ho & HC).
  - vm_compute. reflexivity.
  - exists obs'. split; [exact Ho |]. apply HC.
    apply list_elem_of_In. vm_compute. tauto.
Defined.

End ScrollRevealWatched.

(** ** Mobile Menu: the expanded attribute and sequences of events *)

Section MobileMenuRuns.
Import MobileMenu Samples.

Lemma contains_classList_remove c l : contains c (classList_remove c l) = false.
Proof.
  unfold contains, classList_remove. apply bool_decide_eq_false.
  by intros [Hne _]%list_elem_of_filter.
Qed.

Lemma contains_snoc c (l : list string) : contains c (l ++ [c])%list = true.
Proof.
  unfold contains. apply bool_decide_eq_true, elem_of_app. right. by left.
Qed.

Lemma toggleMenu_closed st :
  is_open st = false →
  toggleMenu st = {| menu_classList := (menu_classList st ++ ["is-open"])%list;
                     aria_expanded := Some "true" |}.
Proof.
  unfold is_open, toggleMenu, classList_toggle. by intros ->.
Qed.

Lemma toggleMenu_open st :
  is_open st = true →
  toggleMenu st
  = {| menu_classList := classList_remove "is-open" (menu_classList st);
       aria_expanded := Some "false" |}.
Proof.
  unfold is_open, toggleMenu, classList_toggle. by intros ->.
Qed.

Lemma is_open_toggleMenu st : is_open (toggleMenu st) = negb (is_open st).
Proof.
  destruct (is_open st) eqn:Ho.
  - rewrite toggleMenu_open by done. apply contains_classList_remove.
  - rewrite toggleMenu_closed by done. apply contains_snoc.
Qed.

Lemma mirrored_toggleMenu st : mirrored (toggleMenu st) = true.
Proof.
  unfold mirrored. apply bool_decide_eq_true. rewrite is_open_toggleMenu.
  destruct (is_open st) eqn:Ho.
  - by rewrite toggleMenu_open.
  - by rewrite toggleMenu_closed.
Qed.

Lemma mirrored_closeMenu st : mirrored (closeMenu st) = true.
Proof.
  unfold mirrored. apply bool_decide_eq_true. by rewrite is_open_closeMenu.
Qed.

(** Every event leaves the state alone, toggles the menu or closes it. *)
Lemma dispatch_cases_menu ev st :
  dispatch ev st = st ∨ dispatch ev st = toggleMenu st
  ∨ dispatch ev st = closeMenu st.
Proof.
  destruct ev as [m t | key]; cbn.
  - unfold onDocumentClick. destruct t; cbn.
    + rewrite andb_false_r. auto.
    + destruct m; cbn; auto.
  - unfold onKeydown. case_bool_decide; auto.
Qed.

(** X17. The button's [aria-expanded] mirrors the panel.  Whatever an event
    does to the state, it leaves it unchanged or leaves [aria-expanded] at
    ["true"] when the panel has the class ['is-open'] and at ["false"] when
    it has not; so once the two agree, they agree after every sequence of
    clicks and key presses. *)
Theorem aria_expanded_mirrors_menu (st : state) :
  (∀ ev, dispatch ev st = st ∨ mirrored (dispatch ev st) = true)
  ∧ (∀ evs, mirrored st = true → mirrored (run evs st) = true).
Proof.
  assert (Hstep : ∀ ev s, dispatch ev s = s ∨ mirrored (dispatch ev s) = true).
  { intros ev s. destruct (dispatch_cases_menu ev s) as [-> | [-> | ->]];
      [by left | right; apply mirrored_toggleMenu
       | right; apply mirrored_closeMenu]. }
  split; [intros ev; apply Hstep |].
  intros evs. unfold run. revert st.
  induction evs as [| ev evs IH]; intros st Hm; [done |].
  cbn. apply IH. by destruct (Hstep ev st) as [-> | ->].
Qed.

Lemma aria_expanded_mirrors_menu_witness :
  mirrored (run [Click false true; Keydown "Tab"; Click false false] menu_open)
  = true.
Proof.
  apply (proj2 (aria_expanded_mirrors_menu menu_open)). reflexivity.
Defined.

Lemma classList_remove_snoc c (l : list string) :
  contains c l = false → classList_remove c (l ++ [c])%list = l.
Proof.
  intros Hc. unfold classList_remove. rewrite filter_app.
  fold (classList_remove c l). rewrite classList_remove_absent by done.
  rewrite filter_cons. destruct (decide (c ≠ c)); [done |].
  by rewrite filter_nil, app_nil_r.
Qed.

(** X18. Toggling twice brings the menu back: it is open exactly when it
    was, the class list holds the same classes, and it is the very same
    list when the menu was closed; [aria-expanded] ends as the value that
    describes the panel, whatever it was before. *)
Theorem toggleMenu_twice (st : state) :
  is_open (toggleMenu (toggleMenu st)) = is_open st
  ∧ (∀ c, c ∈ menu_classList (toggleMenu (toggleMenu st))
          ↔ c ∈ menu_classList st)
  ∧ (is_open st = false →
     menu_classList (toggleMenu (toggleMenu st)) = menu_classList st)
  ∧ aria_expanded (toggleMenu (toggleMenu st))
    = Some (if is_open st then "true" else "false").
Proof.
  assert (Hopen : is_open (toggleMenu (toggleMenu st)) = is_open st).
  { rewrite !is_open_toggleMenu. apply negb_involutive. }
  split; [exact Hopen |].
  destruct (is_open st) eqn:Ho.
  - pose proof (is_open_toggleMenu st) as Ho1. rewrite Ho in Ho1.
    rewrite (toggleMenu_closed (toggleMenu st)) by done.
    rewrite (toggleMenu_open st) by done. cbn [menu_classList aria_expanded].
    split; [| split; [done | done]].
    intros c. unfold classList_remove.
    rewrite elem_of_app, list_elem_of_filter, list_elem_of_singleton.
    split.
    + intros [[_ Hin] | ->]; [done |].
      unfold is_open, contains in Ho. by apply bool_decide_eq_true in Ho.
    + intros Hin. destruct (decide (c = "is-open")); [by right | by left].
  - pose proof (is_open_toggleMenu st) as Ho1. rewrite Ho in Ho1.
    rewrite (toggleMenu_open (toggleMenu st)) by done.
    rewrite (toggleMenu_closed st) by done. cbn [menu_classList aria_expanded].
    rewrite classList_remove_snoc by done. done.
Qed.

Lemma toggleMenu_twice_witness :
  menu_classList (toggleMenu (toggleMenu menu_closed_unlabelled)) = ["nav"].
Proof.
  apply (proj1 (proj2 (proj2 (toggleMenu_twice menu_closed_unlabelled)))).
  reflexivity.
Defined.

(** X19. What closes the menu and what does not.  The Escape key and a
    click outside both the panel and the button close it from any state:
    ['is-open'] is gone, every other class is kept, [aria-expanded] is
    ["false"], and a second such event changes nothing more.  Any other
    key, and a click inside the panel that is not on the button, change
    nothing. *)
Theorem menu_close_events (st : state) :
  onKeydown "Escape" st = closeMenu st
  ∧ onDocumentClick false false st = closeMenu st
  ∧ is_open (closeMenu st) = false
  ∧ aria_expanded (closeMenu st) = Some "false"
  ∧ (∀ c, c ∈ menu_classList (closeMenu st)
          ↔ c ∈ menu_classList st ∧ c ≠ "is-open")
  ∧ closeMenu (closeMenu st) = closeMenu st
  ∧ (∀ key, key ≠ "Escape" → dispatch (Keydown key) st = st)
  ∧ dispatch (Click true false) st = st.
Proof.
  split; [done |]. split; [done |]. split; [apply is_open_closeMenu |].
  split; [done |]. split; [| split; [| split]].
  - intros c. unfold closeMenu, classList_remove; cbn.
    rewrite list_elem_of_filter. tauto.
  - unfold closeMenu; cbn [menu_classList]. f_equal.
    apply classList_remove_absent, contains_classList_remove.
  - intros key Hk. cbn. unfold onKeydown. by rewrite bool_decide_eq_false_2.
  - done.
Qed.

Lemma menu_close_events_witness :
  dispatch (Keydown "Esc") menu_open = menu_open
  ∧ menu_classList (dispatch (Keydown "Escape") menu_open) = ["nav"].
Proof.
  split.
  - apply (proj1 (proj2 (proj2 (proj2 (proj2 (proj2 (proj2
             (menu_close_events menu_open)))))))). discriminate.
  - reflexivity.
Defined.

(** X20. A click on the toggle button flips the menu although the
    document's click listener sees the same click: the document listener
    closes the menu only for clicks outside the button, so the menu the
    button has just opened stays open. *)
Theorem toggle_click_flips (st : state) (in_menu : bool) :
  dispatch (Click in_menu true) st = toggleMenu st
  ∧ is_open (dispatch (Click in_menu true) st) = negb (is_open st)
  ∧ aria_expanded (dispatch (Click in_menu true) st)
    = Some (if is_open st then "false" else "true").
Proof.
  assert (E : dispatch (Click in_menu true) st = toggleMenu st).
  { cbn. unfold onDocumentClick. by rewrite andb_false_r. }
  rewrite E. split; [done |]. split; [apply is_open_toggleMenu |].
  destruct (is_open st) eqn:Ho.
  - by rewrite toggleMenu_open.
  - by rewrite toggleMenu_closed.
Qed.

End MobileMenuRuns.

(** ** Card Effects *)

Section CardEffectsFacts.
Import CardEffects Samples.

Lemma hover_fields f ls card p :
  skill_cards (hover f ls card p) = skill_cards p
  ∧ legacy_cards (hover f ls card p) = legacy_cards p
  ∧ length (svgs (hover f ls card p)) = length (svgs p).
Proof.
  unfold hover. destruct (legacy_bound ls !! card) as [[svg |] |]; cbn;
    [| done ..].
  by rewrite length_alter.
Qed.

Lemma hover_other f ls card p s :
  legacy_bound ls !! card ≠ Some (Some s) →
  svgs (hover f ls card p) !! s = svgs p !! s.
Proof.
  intros Hne. unfold hover.
  destruct (legacy_bound ls !! card) as [[svg |] |]; cbn; [| done ..].
  apply list_lookup_alter_ne. congruence.
Qed.

Lemma hover_captured f ls card p s :
  legacy_bound ls !! card = Some (Some s) →
  svgs (hover f ls card p) !! s = f <$> svgs p !! s.
Proof.
  intros Hb. unfold hover. rewrite Hb. cbn. apply list_lookup_alter_eq.
Qed.

(** X21. Hovering a legacy card that has an [svg]: entering sets the
    enlarging transform and the transition on the [svg]; leaving sets the
    transform back to scale 1 and no rotation but keeps the transition.
    After a hover the [svg] therefore carries both inline styles, whatever
    it carried before. *)
Theorem hover_enter_then_leave (p : page) (card svg : nat) (s0 : style) :
  legacy_cards p !! card = Some (Some svg) →
  svgs p !! svg = Some s0 →
  let entered := dispatch (init p) (MouseEnter card) p in
  let left := dispatch (init p) (MouseLeave card) entered in
  svgs entered !! svg
  = Some {| transform := Some "scale(1.1) rotate(5deg)";
            transition :=
              Some "transform 0.4s cubic-bezier(0.34, 1.56, 0.64, 1)" |}
  ∧ svgs left !! svg
    = Some {| transform := Some "scale(1) rotate(0deg)";
              transition :=
                Some "transform 0.4s cubic-bezier(0.34, 1.56, 0.64, 1)" |}
  ∧ svgs (dispatch (init p) (MouseLeave card) p) !! svg
    = Some {| transform := Some "scale(1) rotate(0deg)";
              transition := transition s0 |}.
Proof.
  intros Hc Hs. cbn zeta. cbn [dispatch].
  assert (Hb : legacy_bound (init p) !! card = Some (Some svg)) by done.
  split; [| split].
  - by rewrite hover_captured, Hs.
  - rewrite hover_captured by done. by rewrite hover_captured, Hs.
  - by rewrite hover_captured, Hs.
Qed.

Lemma hover_enter_then_leave_witness :
  svgs (run (init cards_page) [MouseEnter 2; MouseLeave 2] cards_page) !! 1
  = Some {| transform := Some "scale(1) rotate(0deg)";
            transition :=
              Some "transform 0.4s cubic-bezier(0.34, 1.56, 0.64, 1)" |}.
Proof.
  apply (hover_enter_then_leave cards_page 2 1
           {| transform := None; transition := None |}); reflexivity.
Defined.

Lemma hover_inert f ls card q :
  (∀ s, legacy_bound ls !! card ≠ Some (Some s)) → hover f ls card q = q.
Proof.
  intros Hno. unfold hover.
  destruct (legacy_bound ls !! card) as [[svg |] |] eqn:Hb; [| done ..].
  by destruct (Hno svg).
Qed.

(** X22. Hover events touch nothing but the [svg] a card captured at
    [init]: through any sequence of events an [svg] that is no card's first
    [svg] keeps its style, the cards themselves are unchanged and no [svg]
    appears or disappears.  An event on a skill card, and an event on a
    legacy card without an [svg], has no effect at all, in whatever state
    the page is. *)
Theorem hover_frame (p : page) (evs : list event) :
  skill_cards (run (init p) evs p) = skill_cards p
  ∧ legacy_cards (run (init p) evs p) = legacy_cards p
  ∧ length (svgs (run (init p) evs p)) = length (svgs p)
  ∧ (∀ s, (∀ card, legacy_cards p !! card ≠ Some (Some s)) →
          svgs (run (init p) evs p) !! s = svgs p !! s)
  ∧ (∀ card q, dispatch (init p) (SkillMouseEnter card) q = q
               ∧ dispatch (init p) (SkillMouseLeave card) q = q)
  ∧ (∀ card q, (∀ s, legacy_cards p !! card ≠ Some (Some s)) →
               dispatch (init p) (MouseEnter card) q = q
               ∧ dispatch (init p) (MouseLeave card) q = q).
Proof.
  assert (Hb : legacy_bound (init p) = legacy_cards p) by done.
  generalize (init p) as ls, Hb. intros ls Hls.
  assert (H : ∀ q,
    skill_cards (run ls evs q) = skill_cards q
    ∧ legacy_cards (run ls evs q) = legacy_cards q
    ∧ length (svgs (run ls evs q)) = length (svgs q)
    ∧ ∀ s, (∀ card, legacy_bound ls !! card ≠ Some (Some s)) →
           svgs (run ls evs q) !! s = svgs q !! s).
  { unfold run. induction evs as [| ev evs IH]; intros q; [done |].
    cbn [foldl]. destruct (IH (dispatch ls ev q)) as (H1 & H2 & H3 & H4).
    rewrite H1, H2, H3.
    assert (Hev : skill_cards (dispatch ls ev q) = skill_cards q
              ∧ legacy_cards (dispatch ls ev q) = legacy_cards q
              ∧ length (svgs (dispatch ls ev q)) = length (svgs q)
              ∧ ∀ s, (∀ card, legacy_bound ls !! card ≠ Some (Some s)) →
                     svgs (dispatch ls ev q) !! s = svgs q !! s).
    { destruct ev as [c | c | c | c]; cbn [dispatch]; [done | done | |].
      - destruct (hover_fields onMouseEnter ls c q) as (? & ? & ?).
        repeat split; [done .. |]. intros s Hs. apply hover_other, Hs.
      - destruct (hover_fields onMouseLeave ls c q) as (? & ? & ?).
        repeat split; [done .. |]. intros s Hs. apply hover_other, Hs. }
    destruct Hev as (E1 & E2 & E3 & E4).
    repeat split; [done .. |]. intros s Hs. rewrite H4 by done. by apply E4. }
  destruct (H p) as (H1 & H2 & H3 & H4). rewrite Hls in H4.
  split; [done |]. split; [done |]. split; [done |]. split; [done |].
  split; [done |].
  intros card q Hno. cbn [dispatch]. split; apply hover_inert; by rewrite Hls.
Qed.

Lemma hover_frame_witness :
  svgs (run (init cards_page) [MouseEnter 1; MouseEnter 0; SkillMouseEnter 0]
            cards_page) !! 2
  = Some {| transform := None; transition := None |}
  ∧ dispatch (init cards_page) (MouseEnter 1) cards_page = cards_page.
Proof.
  destruct (hover_frame cards_page
              [MouseEnter 1; MouseEnter 0; SkillMouseEnter 0])
    as (_ & _ & _ & H & _ & Hinert).
  split.
  - rewrite (H 2); [reflexivity |].
    intros [| [| [| card]]]; cbn; discriminate.
  - apply (Hinert 1 cards_page). intros s. cbn. discriminate.
Defined.

End CardEffectsFacts.

(** ** Hero Animation *)

Section HeroAnimationFacts.
Import HeroAnimation Samples.

(** X23. [HeroAnimation.init] raises exactly when the environment has no
    [matchMedia], and it leaves the page and the timers untouched exactly
    when that is so, or reduced motion is requested, or neither selector
    finds a heading. *)
Theorem hero_init_noop_iff (w : window) (d : document) (st : state) :
  ((init w d st).2 = Normal () ↔ is_Some (matchMedia w))
  ∧ ((init w d st).1 = st ↔
     matchMedia w = None
     ∨ (∃ mm, matchMedia w = Some mm
              ∧ mm "(prefers-reduced-motion: reduce)" = true)
     ∨ find_title d = None).
Proof.
  unfold init. destruct (matchMedia w) as [mm |]; cbn [fst snd].
  - destruct (mm "(prefers-reduced-motion: reduce)") eqn:Hr; cbn [fst snd].
    + split; [split; [by eexists | done] |]. split; [| done].
      intros _. right; left. by exists mm.
    + destruct (find_title d) as [el |]; cbn [fst snd].
      * split; [split; [by eexists | done] |]. split.
        -- intros Heq. apply (f_equal (λ s, length (timers s))) in Heq.
           cbn in Heq. rewrite length_app in Heq. cbn in Heq. lia.
        -- intros [? | [(mm' & [= <-] & ?) | ?]]; congruence.
      * split; [split; [by eexists | done] |]. split; [| done]. auto.
  - split; [split; [done | by intros [? ?]] |]. split; [| done]. auto.
Qed.

Lemma hero_init_noop_iff_witness :
  (init window_reduced_motion hero_document hero_state).1 = hero_state
  ∧ (init window_bare hero_document hero_state).2 ≠ Normal ().
Proof.
  split.
  - apply (proj2 (hero_init_noop_iff window_reduced_motion hero_document
                    hero_state)).
    right; left. eexists. split; reflexivity.
  - intros H.
    apply (proj1 (hero_init_noop_iff window_bare hero_document hero_state))
      in H as [? H]. discriminate H.
Defined.

(** X24. The two phases of the animation.  Without reduced motion, the
    heading is the ['.hero-title'] element when there is one and the
    ['#introduction h1'] element otherwise.  [init] makes it transparent and
    shifted down without touching its transition, and sets one timer of 100
    ms for it; when the timer expires the heading gets the transition, full
    opacity and no shift.  No other element is changed at either step. *)
Theorem hero_two_phase (w : window) (mm : string → bool) (d : document)
    (st : state) (el : nat) (s0 : style) :
  matchMedia w = Some mm →
  mm "(prefers-reduced-motion: reduce)" = false →
  hero_title d = Some el ∨ (hero_title d = None ∧ intro_h1 d = Some el) →
  elements st !! el = Some s0 →
  timers st = [] →
  let st1 := (init w d st).1 in
  (init w d st).2 = Normal ()
  ∧ elements st1 !! el
    = Some {| opacity := Some "0"; transform := Some "translateY(20px)";
              transition := transition s0 |}
  ∧ timers st1 = [(100, el)]
  ∧ elements (expire st1) !! el
    = Some {| opacity := Some "1"; transform := Some "translateY(0)";
              transition :=
                Some "opacity 0.8s ease-out, transform 0.8s ease-out" |}
  ∧ timers (expire st1) = []
  ∧ ∀ j, j ≠ el → elements st1 !! j = elements st !! j
                  ∧ elements (expire st1) !! j = elements st !! j.
Proof.
  intros Hmm Hr Hd Hs Ht. cbn zeta.
  assert (Hf : find_title d = Some el).
  { unfold find_title. by destruct Hd as [-> | [-> ->]]. }
  unfold init. rewrite Hmm, Hr, Hf, Ht. cbn [fst snd app].
  unfold expire, onTimeout; cbn [elements timers foldl snd].
  split; [done |]. split; [by rewrite list_lookup_alter_eq, Hs |].
  split; [done |].
  split; [by rewrite !list_lookup_alter_eq, Hs |]. split; [done |].
  intros j Hj. by rewrite !list_lookup_alter_ne.
Qed.

Lemma hero_two_phase_witness :
  elements (init window_light hero_document hero_state).1 !! 1
  = Some {| opacity := Some "0"; transform := Some "translateY(20px)";
            transition := None |}
  ∧ elements (expire (init window_light hero_document hero_state).1) !! 1
    = Some {| opacity := Some "1"; transform := Some "translateY(0)";
              transition :=
                Some "opacity 0.8s ease-out, transform 0.8s ease-out" |}.
Proof.
  destruct (hero_two_phase window_light (λ _, false) hero_document hero_state
              1 plain_style eq_refl eq_refl (or_intror (conj eq_refl eq_refl))
              eq_refl eq_refl) as (_ & H0 & _ & H1 & _).
  split; [exact H0 | exact H1].
Defined.

End HeroAnimationFacts.

(** ** Initialize All Modules *)

Section MainFacts.
Import Samples Main.

(** X25. The start-up sequence runs to its end exactly when the
    environment has [matchMedia], its MediaQueryList has
    [addEventListener], and either reduced motion is requested or
    IntersectionObserver exists; it then has registered the listeners of
    all four modules that have some, each as that module's own [init]
    decides. *)
Theorem main_init_completes_iff (w : window) (p : page) :
  ((init w p).2 = Normal () ↔
   ∃ mm, matchMedia w = Some mm
         ∧ mediaQueryList_addEventListener w = true
         ∧ (mm "(prefers-reduced-motion: reduce)" = true
            ∨ has_IntersectionObserver w = true))
  ∧ ((init w p).2 = Normal () →
     theme_listeners (init w p).1.2 = Some (ThemeToggle.init w (theme p)).2
     ∧ anchor_listeners (init w p).1.2 = Some (SmoothScroll.init (anchors p))
     ∧ card_listeners (init w p).1.2 = Some (CardEffects.init (cards p))
     ∧ menu_listeners (init w p).1.2 = Some (MobileMenu.init (menu p))).
Proof.
  unfold init, ThemeToggle.init_completion, ThemeToggle.watchSystemTheme,
    ScrollReveal.init, HeroAnimation.init.
  cbn [ThemeToggle.init].
  destruct (matchMedia w) as [mm |]; cbn [fst snd].
  - destruct (mediaQueryList_addEventListener w) eqn:Ha; cbn [fst snd].
    + destruct (mm "(prefers-reduced-motion: reduce)") eqn:Hr; cbn [fst snd].
      * split; [| done]. split; [| done]. intros _. exists mm. auto.
      * destruct (has_IntersectionObserver w) eqn:Hio; cbn [fst snd].
        -- destruct (HeroAnimation.find_title (hero_document p));
             cbn [fst snd];
             (split; [| done]; split; [| done]; intros _; exists mm; auto).
        -- split; [| done]. split; [done |].
           intros (mm' & [= <-] & _ & [? | ?]); congruence.
    + split; [| done]. split; [done |]. by intros (? & _ & ? & _).
  - split; [| done]. split; [done | by intros (? & ? & _)].
Qed.

Lemma main_init_completes_iff_witness :
  (init window_light whole_page).2 = Normal ()
  ∧ menu_listeners (init window_light whole_page).1.2
    = Some (Some menu_closed_unlabelled).
Proof.
  assert (H : (init window_light whole_page).2 = Normal ()).
  { apply (proj1 (main_init_completes_iff window_light whole_page)).
    exists (λ _, false). split; [reflexivity |]. split; [reflexivity | by right]. }
  split; [exact H |].
  destruct (proj2 (main_init_completes_iff window_light whole_page) H)
    as (_ & _ & _ & Hm).
  rewrite Hm. reflexivity.
Defined.

(** X26. When the start-up sequence raises, one of three things happened.
    [ThemeToggle.init] raised a [TypeError] because the MediaQueryList has
    no [addEventListener]: then not even the anchors are bound.  Or
    [ScrollReveal.init] raised, a [TypeError] without [matchMedia] or a
    [ReferenceError] without IntersectionObserver: then the anchors are
    bound.  In each case the theme has been applied and the listeners
    [ThemeToggle.init] had registered by then stay, but the modules after
    the failing one were never reached: the cards and the menu have no
    listeners, the hero heading is untouched, and nothing is revealed or
    watched. *)
Theorem main_init_aborts (w : window) (p : page) :
  (init w p).2 ≠ Normal () →
  ((is_Some (matchMedia w) ∧ mediaQueryList_addEventListener w = false
    ∧ (init w p).2 = Throw TypeError
    ∧ anchor_listeners (init w p).1.2 = None)
   ∨ (matchMedia w = None
      ∧ (init w p).2 = Throw TypeError
      ∧ anchor_listeners (init w p).1.2 = Some (SmoothScroll.init (anchors p)))
   ∨ (is_Some (matchMedia w) ∧ mediaQueryList_addEventListener w = true
      ∧ has_IntersectionObserver w = false
      ∧ (init w p).2 = Throw ReferenceError
      ∧ anchor_listeners (init w p).1.2
        = Some (SmoothScroll.init (anchors p))))
  ∧ theme (init w p).1.1 = (ThemeToggle.init w (theme p)).1
  ∧ theme_listeners (init w p).1.2 = Some (ThemeToggle.init w (theme p)).2
  ∧ card_listeners (init w p).1.2 = None
  ∧ menu_listeners (init w p).1.2 = None
  ∧ hero (init w p).1.1 = hero p
  ∧ reveal (init w p).1.1 = reveal p.
Proof.
  unfold init, ThemeToggle.init_completion, ThemeToggle.watchSystemTheme,
    ScrollReveal.init, HeroAnimation.init.
  cbn [ThemeToggle.init].
  destruct (matchMedia w) as [mm |]; cbn [fst snd].
  - destruct (mediaQueryList_addEventListener w) eqn:Ha; cbn [fst snd].
    + destruct (mm "(prefers-reduced-motion: reduce)") eqn:Hr; cbn [fst snd];
        [done |].
      destruct (has_IntersectionObserver w) eqn:Hio; cbn [fst snd].
      * destruct (HeroAnimation.find_title (hero_document p)); cbn [fst snd];
          done.
      * intros _. split; [| done]. right; right. by repeat split; eauto.
    + intros _. split; [| done]. left. by repeat split; eauto.
  - intros _. split; [| done]. right; left. done.
Qed.

Lemma main_init_aborts_witness :
  (init window_old_media_query whole_page).2 = Throw TypeError
  ∧ anchor_listeners (init window_old_media_query whole_page).1.2 = None
  ∧ ThemeToggle.data_theme (theme (init window_old_media_query whole_page).1.1)
    = Some "light"
  ∧ (init window_bare whole_page).2 = Throw TypeError
  ∧ card_listeners (init window_bare whole_page).1.2 = None
  ∧ menu_listeners (init window_bare whole_page).1.2 = None.
Proof.
  destruct (main_init_aborts window_old_media_query whole_page)
    as (_ & Ht & _); [discriminate |].
  destruct (main_init_aborts window_bare whole_page)
    as (_ & _ & _ & Hc & Hm & _); [discriminate |].
  split; [reflexivity |]. split; [reflexivity |]. split; [by rewrite Ht |].
  split; [reflexivity |]. split; [exact Hc | exact Hm].
Defined.

End MainFacts.
